(** * Verification of the path reconciliation core of [arr_folder_renamer.py]

    Shallow embedding of the Radarr / Sonarr folder renamer: token
    extraction, path generation, the update requests, the move verifier
    that scans the Radarr log, and the per-service processing loops.

    Conventions of the embedding.
    - Strings are Stdlib [string]s (ASCII text); Python's [str.lower] is
      modelled on ASCII letters.
    - A JSON value returned by the services is a [jval]; a JSON object
      (a Python dict) is a [gmap string jval].  JSON arrays and nested
      objects are kept opaque ([JRaw]) with their Python [str()] text and
      truthiness, since the code never looks inside them.
    - Python exceptions that escape a function are the [Raise] outcome.
    - HTTP calls are answered by an explicit environment record; the
      requests that mutate the services are recorded as events. *)

From Stdlib Require Import ZArith Ascii String Bool List Lia.
From stdpp Require Import base gmap strings pretty list.
Import ListNotations.
Open Scope string_scope.

(* ================================================================= *)
(** ** JSON values and Python helpers *)

Inductive jval : Type :=
| JNull
| JBool (b : bool)
| JInt (z : Z)
| JStr (s : string)
| JRaw (text : string) (truthy : bool).

#[global] Instance jval_eq_dec : EqDecision jval.
Proof. solve_decision. Defined.

Abbreviation obj := (gmap string jval).

(** Python outcome of a computation: a value or an escaping exception. *)
Inductive outcome (A : Type) : Type :=
| Ret (a : A)
| Raise (exn : string).
Arguments Ret {A} a.
Arguments Raise {A} exn.

Definition bind_out {A B} (m : outcome A) (k : A -> outcome B) : outcome B :=
  match m with Ret a => k a | Raise e => Raise e end.

Notation "'let!' x := m 'in' k" := (bind_out m (fun x => k))
  (at level 200, x name, m at level 100, k at level 200).

(** [bool(v)] *)
Definition truthy (v : jval) : bool :=
  match v with
  | JNull => false
  | JBool b => b
  | JInt z => negb (Z.eqb z 0)
  | JStr s => negb (String.eqb s "")
  | JRaw _ t => t
  end.

(** [str(v)] *)
Definition py_str (v : jval) : string :=
  match v with
  | JNull => "None"
  | JBool true => "True"
  | JBool false => "False"
  | JInt z => pretty z
  | JStr s => s
  | JRaw t _ => t
  end.

(** [d.get(k, default)] *)
Definition py_get (d : obj) (k : string) (default : jval) : jval :=
  match d !! k with Some v => v | None => default end.

(** [d[k]] *)
Definition py_getitem (d : obj) (k : string) : outcome jval :=
  match d !! k with Some v => Ret v | None => Raise "KeyError" end.

(** A value used with a string method: anything else raises. *)
Definition as_str (v : jval) : outcome string :=
  match v with
  | JStr s => Ret s
  | JNull => Raise "AttributeError"
  | _ => Raise "AttributeError"
  end.

(* ----------------------------------------------------------------- *)
(** *** String methods *)

Definition slash : ascii := "/"%char.

Definition is_space (c : ascii) : bool :=
  match nat_of_ascii c with
  | 32 | 9 | 10 | 11 | 12 | 13 => true
  | _ => false
  end.

(** [s.rstrip(chars)] for the character class [p]. *)
Fixpoint rstrip_by (p : ascii -> bool) (s : string) : string :=
  match s with
  | EmptyString => EmptyString
  | String c s' =>
      let r := rstrip_by p s' in
      if String.eqb r "" && p c then "" else String c r
  end.

(** [s.lstrip(chars)] *)
Fixpoint lstrip_by (p : ascii -> bool) (s : string) : string :=
  match s with
  | EmptyString => EmptyString
  | String c s' => if p c then lstrip_by p s' else s
  end.

(** [s.rstrip("/")] *)
Definition rstrip_slash (s : string) : string :=
  rstrip_by (fun c => Ascii.eqb c slash) s.

(** [s.strip()] *)
Definition py_strip (s : string) : string :=
  lstrip_by is_space (rstrip_by is_space s).

(** [sub in s] *)
Fixpoint py_contains (sub s : string) : bool :=
  match s with
  | EmptyString => String.prefix sub ""
  | String _ s' => String.prefix sub s || py_contains sub s'
  end.

(** [s.startswith(p)] *)
Definition startswith (s p : string) : bool := String.prefix p s.

(** [s.replace(old, new)] for a non-empty [old]: left-to-right,
    non-overlapping.  [n] counts the characters of the current match
    still to be dropped. *)
Fixpoint replace_from (old new : string) (n : nat) (s : string) : string :=
  match s with
  | EmptyString => EmptyString
  | String c s' =>
      match n with
      | S n' => replace_from old new n' s'
      | O =>
          if String.prefix old s
          then new ++ replace_from old new (String.length old - 1) s'
          else String c (replace_from old new 0 s')
      end
  end.

(** [s.replace("", new)] inserts [new] around every character. *)
Fixpoint replace_empty (new s : string) : string :=
  match s with
  | EmptyString => new
  | String c s' => new ++ String c (replace_empty new s')
  end.

(** [s.replace(old, new)] *)
Definition py_replace (old new s : string) : string :=
  if String.eqb old "" then replace_empty new s else replace_from old new 0 s.

(** [s.split(sep)[0]] for a non-empty [sep]. *)
Fixpoint split_first (sep s : string) : string :=
  match s with
  | EmptyString => EmptyString
  | String c s' => if String.prefix sep s then "" else String c (split_first sep s')
  end.

Definition ascii_lower (c : ascii) : ascii :=
  let n := nat_of_ascii c in
  if (65 <=? n)%nat && (n <=? 90)%nat then ascii_of_nat (n + 32) else c.

Definition ascii_upper (c : ascii) : ascii :=
  let n := nat_of_ascii c in
  if (97 <=? n)%nat && (n <=? 122)%nat then ascii_of_nat (n - 32) else c.

Definition is_letter (c : ascii) : bool :=
  let n := nat_of_ascii c in
  ((65 <=? n)%nat && (n <=? 90)%nat) || ((97 <=? n)%nat && (n <=? 122)%nat).

Definition is_digit (c : ascii) : bool :=
  let n := nat_of_ascii c in (48 <=? n)%nat && (n <=? 57)%nat.

Definition is_alnum (c : ascii) : bool := is_letter c || is_digit c.

(** [s.lower()] *)
Fixpoint py_lower (s : string) : string :=
  match s with
  | EmptyString => EmptyString
  | String c s' => String (ascii_lower c) (py_lower s')
  end.

(** [re.sub(pattern, "", s)] for a one-character class [keep]'s complement. *)
Fixpoint keep_chars (keep : ascii -> bool) (s : string) : string :=
  match s with
  | EmptyString => EmptyString
  | String c s' => if keep c then String c (keep_chars keep s') else keep_chars keep s'
  end.

(** [re.sub(r"\s+", " ", s)]; [in_run] is set inside a run of blanks. *)
Fixpoint collapse_ws (in_run : bool) (s : string) : string :=
  match s with
  | EmptyString => EmptyString
  | String c s' =>
      if is_space c
      then (if in_run then collapse_ws true s' else String " " (collapse_ws true s'))
      else String c (collapse_ws false s')
  end.

(** [s.title()]: a letter is upper-cased after a non-letter and
    lower-cased after a letter. *)
Fixpoint py_title_from (prev_cased : bool) (s : string) : string :=
  match s with
  | EmptyString => EmptyString
  | String c s' =>
      if is_letter c
      then String (if prev_cased then ascii_lower c else ascii_upper c) (py_title_from true s')
      else String c (py_title_from false s')
  end.

Definition py_title (s : string) : string := py_title_from false s.

Example py_replace_ex1 : py_replace "//" "/" "/a//b///c" = "/a/b//c".
Proof. reflexivity. Qed.
Example py_replace_ex2 : py_replace "" "X" "ab" = "XaXbX".
Proof. reflexivity. Qed.
Example rstrip_ex : rstrip_slash "/a/b//" = "/a/b" /\ rstrip_slash "//" = "".
Proof. split; reflexivity. Qed.
Example title_ex : py_title "the 2fast man" = "The 2Fast Man".
Proof. reflexivity. Qed.
Example strip_ex : py_strip "  a b  " = "a b".
Proof. reflexivity. Qed.
Example pretty_ex : py_str (JInt 12345) = "12345" /\ py_str (JInt (-7)) = "-7".
Proof. split; reflexivity. Qed.

(* ================================================================= *)
(** ** Token Resolver and Path Generator *)

Definition lbrace : ascii := "{"%char.
Definition rbrace : ascii := "}"%char.
Definition is_brace (c : ascii) : bool := Ascii.eqb c lbrace || Ascii.eqb c rbrace.

(** A Python dict with insertion order: an association list where
    [d[k] = v] updates an existing key in place and appends a new one. *)
Fixpoint dict_set {V} (k : string) (v : V) (d : list (string * V)) : list (string * V) :=
  match d with
  | [] => [(k, v)]
  | (k', v') :: d' => if String.eqb k k' then (k', v) :: d' else (k', v') :: dict_set k v d'
  end.

(** After an opening brace, [[^{}]+\}]: the body and the rest after the
    closing brace. *)
Fixpoint brace_body (s : string) : option (string * string) :=
  match s with
  | EmptyString => None
  | String c s' =>
      if Ascii.eqb c rbrace then Some ("", s')
      else if Ascii.eqb c lbrace then None
      else match brace_body s' with
           | Some (b, r) => Some (String c b, r)
           | None => None
           end
  end.

Fixpoint findall_fuel (fuel : nat) (s : string) : list string :=
  match fuel with
  | O => []
  | S fuel' =>
      match s with
      | EmptyString => []
      | String c s' =>
          if Ascii.eqb c lbrace then
            match brace_body s' with
            | Some (b, r) =>
                if String.eqb b "" then findall_fuel fuel' s'
                else ("{" ++ b ++ "}") :: findall_fuel fuel' r
            | None => findall_fuel fuel' s'
            end
          else findall_fuel fuel' s'
      end
  end.

(** [get_folder_name_tokens]: [re.findall(r"\{[^{}]+\}", folder_format)]. *)
Definition get_folder_name_tokens (folder_format : string) : list string :=
  findall_fuel (S (String.length folder_format)) folder_format.

(** [generate_clean_title] *)
Definition generate_clean_title (title : jval) : outcome string :=
  if negb (truthy title) then Ret "Unknown-Title"
  else
    let! t := as_str title in
    let clean_title := py_lower t in
    let clean_title := keep_chars (fun c => is_alnum c || Ascii.eqb c " "%char) clean_title in
    let clean_title := py_strip (collapse_ws false clean_title) in
    Ret (py_title clean_title).

(** [token.strip("{}")] *)
Definition strip_braces (t : string) : string := lstrip_by is_brace (rstrip_by is_brace t).

(** The [token_map] of [extract_token_values]. *)
Definition movie_token_field (clean_token : string) : option string :=
  if String.eqb clean_token "Release Year" then Some "year"
  else if String.eqb clean_token "Movie CleanTitle" then Some "title"
  else if String.eqb clean_token "TmdbId" then Some "tmdbId"
  else if String.eqb clean_token "ImdbId" then Some "imdbId"
  else None.

Definition movie_token_value (movie_data : obj) (token : string) : outcome jval :=
  let clean_token := strip_braces token in
  if String.eqb clean_token "Movie CleanTitle" then
    let! v := generate_clean_title (py_get movie_data "title" (JStr "Unknown Title")) in
    Ret (JStr v)
  else match movie_token_field clean_token with
       | Some api_field =>
           let value := py_get movie_data api_field JNull in
           if negb (truthy value) then Ret (JStr ("Unknown-" ++ clean_token)) else Ret value
       | None => Ret (JStr ("Unknown-" ++ clean_token))
       end.

Fixpoint extract_token_values_acc (movie_data : obj) (tokens : list string)
    (acc : list (string * jval)) : outcome (list (string * jval)) :=
  match tokens with
  | [] => Ret acc
  | token :: tokens' =>
      let! value := movie_token_value movie_data token in
      extract_token_values_acc movie_data tokens' (dict_set token value acc)
  end.

(** [extract_token_values] *)
Definition extract_token_values (movie_data : obj) (tokens : list string)
    : outcome (list (string * jval)) :=
  extract_token_values_acc movie_data tokens [].

(** The substitution loop shared by [generate_new_path] and
    [generate_series_path]. *)
Definition subst_step (new_path : string) (tv : string * jval) : string :=
  let '(token, value) := tv in
  if py_contains "Unknown" (py_str value)
  then py_replace token "" new_path
  else py_replace token (py_str value) new_path.

Definition substitute_tokens (folder_format : string) (token_values : list (string * jval)) : string :=
  fold_left subst_step token_values folder_format.

(** [generate_new_path] *)
Definition generate_new_path (root_folder folder_format : string)
    (token_values : list (string * jval)) : string :=
  let new_path := substitute_tokens folder_format token_values in
  let final_path :=
    if startswith new_path root_folder
    then py_replace "//" "/" new_path
    else py_replace "//" "/" (root_folder ++ "/" ++ new_path) in
  rstrip_slash final_path ++ "/".

(** [generate_series_path] *)
Definition generate_series_path (root_folder folder_format : string)
    (token_values : list (string * jval)) : string :=
  let new_path := substitute_tokens folder_format token_values in
  rstrip_slash root_folder ++ "/" ++ rstrip_slash new_path ++ "/".

(** [str[:4]] *)
Definition slice4 (v : jval) : outcome jval :=
  match v with
  | JStr s => Ret (JStr (substring 0 4 s))
  | _ => Raise "TypeError"
  end.

(** [extract_series_token_values]; the [tokens] argument is unused by
    the source. *)
Definition extract_series_token_values (series_data : obj) (tokens : list string)
    : outcome (list (string * jval)) :=
  let title := py_get series_data "title" (JStr "Unknown") in
  let! first_aired := slice4 (py_get series_data "firstAired" (JStr "0000")) in
  let year := py_str (py_get series_data "year" first_aired) in
  let! t := as_str title in
  let title_year := if py_contains ("(" ++ year ++ ")") t then t else t ++ " (" ++ year ++ ")" in
  Ret [("{Series TitleYear}", JStr title_year);
       ("{ImdbId}", py_get series_data "imdbId" (JStr "Unknown-ImdbId"));
       ("{TvdbId}", py_get series_data "tvdbId" (JStr "Unknown-TvdbId"))].

(** Scenario A of the specification. *)
Definition scenario_movie : obj :=
  list_to_map [("id", JInt 1); ("title", JStr "Movie"); ("year", JInt 2010);
               ("tmdbId", JInt 12345); ("rootFolderPath", JStr "/data/movies");
               ("path", JStr "/data/movies/Movie/"); ("hasFile", JBool true)].

Definition scenario_format : string := "{Movie CleanTitle} ({Release Year}) {TmdbId}".

Example tokens_ex : get_folder_name_tokens scenario_format
  = ["{Movie CleanTitle}"; "{Release Year}"; "{TmdbId}"].
Proof. reflexivity. Qed.

Example scenario_A_path :
  (let! tv := extract_token_values scenario_movie (get_folder_name_tokens scenario_format) in
   Ret (generate_new_path "/data/movies" scenario_format tv))
  = Ret "/data/movies/Movie (2010) 12345/".
Proof. vm_compute. reflexivity. Qed.

Example findall_ex : get_folder_name_tokens "{{A}B} {} {C" = ["{A}"].
Proof. reflexivity. Qed.

(* ================================================================= *)
(** ** Services, events and run state *)

(** One record of [GET /api/v3/log]: its [time] (parsed, in seconds)
    and its [message]. *)
Record log_record := { log_time : Z; log_message : string }.

(** The answers of the Radarr API during one run. *)
Record radarr_env := {
  radarr_folder_format : option string;          (* get_movie_folder_format *)
  radarr_movies : list obj;                      (* get_all_movies (hasFile only) *)
  radarr_root_folders : list obj;                (* get_root_folders ([] on error) *)
  radarr_movie_details : string -> option obj;   (* get_movie_details (None on error) *)
  radarr_put_ok : string -> bool;                (* PUT /movie/{id}: false if it raised *)
  radarr_movie_files : string -> nat -> bool;    (* verify_movie_files, per attempt *)
  radarr_log_page : nat -> nat -> option (list log_record);
      (* GET /log?page=p at retry r; None for a non-200 status *)
  radarr_now : Z                                  (* datetime.utcnow(), in seconds *)
}.

(** Result of [PUT /series/{id}]. *)
Inductive put_result := PutOk | PutHttpError (code : Z) | PutRequestError.

(** The answers of the Sonarr API during one run. *)
Record sonarr_env := {
  sonarr_folder_format : option string;
  sonarr_series : list obj;                      (* get_all_series (with files only) *)
  sonarr_root_folders : list obj;                (* get_root_folders_sonarr *)
  sonarr_series_details : string -> option obj;  (* get_series_details *)
  sonarr_put : string -> put_result
}.

(** Requests that change a service, and the per-entry errors reported. *)
Inductive event :=
| MoviePut (movie_id : string) (payload : obj)
| MovieRescan (movie_id : string)
| MovieRootFolderMissing (movie_id : string)
| SeriesPut (series_id : string) (payload : obj)
| SeriesRescan (series_id : string)
| SeriesRootFolderInvalid (series_id : string).

Definition is_update (e : event) : bool :=
  match e with MoviePut _ _ | SeriesPut _ _ => true | _ => false end.

Definition is_rescan (e : event) : bool :=
  match e with MovieRescan _ | SeriesRescan _ => true | _ => false end.

(** State of a processing loop: the cache, the processed entries, the
    counter checked against [WORK_LIMIT], and the emitted events. *)
Record run_state := {
  cache : gmap string string;
  processed : list obj;
  count : Z;
  trace : list event
}.

Definition add_events (st : run_state) (evs : list event) : run_state :=
  {| cache := cache st; processed := processed st; count := count st;
     trace := trace st ++ evs |}.

Definition set_cache (st : run_state) (k v : string) : run_state :=
  {| cache := <[k := v]> (cache st); processed := processed st; count := count st;
     trace := trace st |}.

Definition add_processed (st : run_state) (m : obj) : run_state :=
  {| cache := cache st; processed := processed st ++ [m]; count := count st + 1;
     trace := trace st |}.

(** An element of the list given to [wait_for_movie_moves]: a dict, or
    any other Python value (such as a title string). *)
Inductive item := ItemDict (d : obj) | ItemOther (v : jval).

Section Engine.

Variable DRY_RUN : bool.
Variable WORK_LIMIT : Z.
(** [unidecode.unidecode] *)
Variable unidecode : string -> string.

(* ----------------------------------------------------------------- *)
(** *** Move-Completion Verifier: [wait_for_movie_moves] *)

(** [normalize_title] *)
Definition normalize_title (title : jval) : outcome string :=
  if negb (truthy title) then Ret ""
  else let! t := as_str title in
       Ret (keep_chars is_alnum (py_strip (py_lower (unidecode t)))).

Definition moved_phrase : string := "moved successfully to".

(** [log_time_threshold = datetime.utcnow() - timedelta(hours=12)] *)
Definition log_time_threshold (now : Z) : Z := now - 12 * 3600.

Definition str_mem (x : string) (l : list string) : bool := existsb (String.eqb x) l.

(** [moved_movies.add(x)] *)
Definition set_add (x : string) (l : list string) : list string :=
  if str_mem x l then l else l ++ [x].

(** The filtering loop over the records of one page of the log. *)
Fixpoint scan_records (threshold : Z) (expected : list string)
    (new_logs : list log_record) (moved : list string) : list string :=
  match new_logs with
  | [] => moved
  | log :: logs =>
      if Z.ltb (log_time log) threshold then scan_records threshold expected logs moved
      else
        let message := py_lower (log_message log) in
        if py_contains moved_phrase message then
          match normalize_title (JStr (py_strip (split_first moved_phrase message))) with
          | Ret moved_title =>
              if str_mem moved_title expected
              then scan_records threshold expected logs (set_add moved_title moved)
              else scan_records threshold expected logs moved
          | Raise _ => moved  (* not reached: the argument is a string *)
          end
        else scan_records threshold expected logs moved
  end.

(** [moved_movies >= expected_titles] *)
Definition superset (moved expected : list string) : bool :=
  forallb (fun t => str_mem t moved) expected.

(** The expected titles: [normalize_title(movie["title"])] for every
    dict having a ["title"] key. *)
Fixpoint expected_titles_of (ms : list item) : outcome (list string) :=
  match ms with
  | [] => Ret []
  | ItemDict d :: ms' =>
      match d !! "title" with
      | Some t =>
          let! x := normalize_title t in
          let! rest := expected_titles_of ms' in
          Ret (set_add x rest)
      | None => expected_titles_of ms'
      end
  | ItemOther _ :: ms' => expected_titles_of ms'
  end.

(** The page loop [while page <= max_pages] of one retry.  Result:
    [inl b] when the function returns [b], [inr moved] when the page
    loop ends. *)
Fixpoint scan_pages (env : radarr_env) (threshold : Z) (expected : list string)
    (retry page fuel : nat) (moved : list string) : bool + list string :=
  match fuel with
  | O => inr moved
  | S fuel' =>
      match radarr_log_page env retry page with
      | None => inl false
      | Some [] => inr moved
      | Some new_logs =>
          let moved' := scan_records threshold expected new_logs moved in
          if superset moved' expected then inl true
          else scan_pages env threshold expected retry (S page) fuel' moved'
      end
  end.

Definition max_pages : nat := 3.

(** The retry loop [while retries < max_retries]. *)
Fixpoint retry_loop (env : radarr_env) (threshold : Z) (expected : list string)
    (retries fuel : nat) (moved : list string) : bool :=
  match fuel with
  | O => false
  | S fuel' =>
      match scan_pages env threshold expected retries 1 max_pages moved with
      | inl b => b
      | inr moved' =>
          if (3 <=? retries)%nat && (match moved' with [] => true | _ => false end)
          then false
          else retry_loop env threshold expected (S retries) fuel' moved'
      end
  end.

(** [wait_for_movie_moves(api_url, api_key, processed_movies, max_retries=5)] *)
Definition wait_for_movie_moves (env : radarr_env) (processed_movies : list item)
    : outcome bool :=
  let threshold := log_time_threshold (radarr_now env) in
  match processed_movies with
  | [] => Ret false
  | _ =>
      let! expected := expected_titles_of processed_movies in
      match expected with
      | [] => Ret false
      | _ => Ret (retry_loop env threshold expected 0 5 [])
      end
  end.

(* ----------------------------------------------------------------- *)
(** *** Change Orchestrator: [update_movie_path] *)

(** [any(folder["path"].rstrip("/") == root_folder_path.rstrip("/") for folder in root_folders)] *)
Fixpoint root_folder_known (root_folders : list obj) (root_folder_path : string) : outcome bool :=
  match root_folders with
  | [] => Ret false
  | folder :: fs =>
      let! p := py_getitem folder "path" in
      let! p := as_str p in
      if String.eqb (rstrip_slash p) (rstrip_slash root_folder_path) then Ret true
      else root_folder_known fs root_folder_path
  end.

(** [if quality_profile_id <= 0: return true]: [true] is an unbound name. *)
Definition check_quality_profile (q : jval) : outcome unit :=
  match q with
  | JInt z => if Z.leb z 0 then Raise "NameError" else Ret tt
  | JBool b => if b then Ret tt else Raise "NameError"
  | _ => Raise "TypeError"
  end.

(** The [payload] dict sent by the PUT request. *)
Definition build_movie_payload (movie_details : obj) (new_path : string) : outcome obj :=
  let quality_profile_id := py_get movie_details "qualityProfileId" (JInt 0) in
  let sort_title := py_get movie_details "sortTitle" (JStr "") in
  let year := py_get movie_details "year" (JStr "") in
  let! id := py_getitem movie_details "id" in
  let! title := py_getitem movie_details "title" in
  let! monitored := py_getitem movie_details "monitored" in
  let! tmdb := py_getitem movie_details "tmdbId" in
  Ret (list_to_map
    [("id", id); ("title", title); ("sortTitle", sort_title); ("year", year);
     ("path", JStr new_path); ("monitored", monitored);
     ("qualityProfileId", quality_profile_id);
     ("metadataProfileId", py_get movie_details "metadataProfileId" JNull);
     ("tmdbId", tmdb); ("imdbId", py_get movie_details "imdbId" (JStr ""))]).

(** The verification loop after the PUT: [while attempt < max_attempts]. *)
Fixpoint verify_loop (env : radarr_env) (movie_id : string) (movies_to_process : list obj)
    (attempt fuel : nat) : list event * outcome bool :=
  match fuel with
  | O => ([], Ret false)
  | S fuel' =>
      if radarr_movie_files env movie_id attempt then
        (* movie_titles = [movie["title"] for movie in movies_to_process] *)
        match mapM (fun m => match py_getitem m "title" with
                             | Ret t => Some t | Raise _ => None end) movies_to_process with
        | None => ([], Raise "KeyError")
        | Some movie_titles =>
            match wait_for_movie_moves env (map ItemOther movie_titles) with
            | Raise e => ([], Raise e)
            | Ret true =>
                (* force_rescan, then [for movie_id in [processed_movies]]:
                   [processed_movies] is unbound here *)
                ([MovieRescan movie_id], Raise "NameError")
            | Ret false => ([], Ret true)
            end
        end
      else verify_loop env movie_id movies_to_process (S attempt) fuel'
  end.

Definition max_attempts : nat := 3.

(** [update_movie_path(api_url, api_key, movie_id, new_path, root_folder,
    root_folder_path, movies_to_process)] *)
Definition update_movie_path (env : radarr_env) (movie_id new_path root_folder_path : string)
    (movies_to_process : list obj) : list event * outcome bool :=
  let root_folders := radarr_root_folders env in
  match radarr_movie_details env movie_id with
  | None => ([], Raise "AttributeError")
  | Some details0 =>
  match as_str (py_get details0 "path" (JStr "")) with
  | Raise e => ([], Raise e)
  | Ret path0 =>
  if String.eqb (rstrip_slash path0) (rstrip_slash new_path) then ([], Ret false)
  else
  match root_folder_known root_folders root_folder_path with
  | Raise e => ([], Raise e)
  | Ret false => ([MovieRootFolderMissing movie_id], Ret false)
  | Ret true =>
  match radarr_movie_details env movie_id with
  | None => ([], Ret false)
  | Some movie_details =>
  if bool_decide (movie_details = ∅) then ([], Ret false) else
  match as_str (py_get movie_details "path" (JStr "")) with
  | Raise e => ([], Raise e)
  | Ret path1 =>
  if String.eqb (rstrip_slash path1) (rstrip_slash new_path) then ([], Ret false)
  else
  match check_quality_profile (py_get movie_details "qualityProfileId" (JInt 0)) with
  | Raise e => ([], Raise e)
  | Ret _ =>
  match build_movie_payload movie_details new_path with
  | Raise e => ([], Raise e)
  | Ret payload =>
  if DRY_RUN then ([], Ret true)
  else if negb (radarr_put_ok env movie_id) then ([MoviePut movie_id payload], Ret false)
  else
    let '(evs, r) := verify_loop env movie_id movies_to_process 0 max_attempts in
    (MoviePut movie_id payload :: evs, r)
  end end end end end end end.

(* ----------------------------------------------------------------- *)
(** *** Reconciliation loop: [process_radarr] *)

(** [WORK_LIMIT > 0 and count >= WORK_LIMIT] *)
Definition cap_reached (count : Z) : bool := Z.ltb 0 WORK_LIMIT && Z.leb WORK_LIMIT count.

(** One iteration of [for movie in movies] after the cap check. *)
Definition radarr_step (env : radarr_env) (folder_format : string) (tokens : list string)
    (movies : list obj) (movie : obj) (st : run_state) : run_state * outcome unit :=
  match py_getitem movie "id" with
  | Raise e => (st, Raise e)
  | Ret idv =>
  let movie_id := py_str idv in
  if bool_decide (is_Some (cache st !! movie_id)) then (st, Ret tt) else
  match extract_token_values movie tokens with
  | Raise e => (st, Raise e)
  | Ret token_values =>
  match bind_out (py_getitem movie "rootFolderPath") as_str with
  | Raise e => (st, Raise e)
  | Ret root =>
  let new_path := generate_new_path root folder_format token_values in
  let cached_ok := match cache st !! movie_id with
                   | Some cached_path => negb (String.eqb cached_path "")
                                         && String.eqb cached_path (rstrip_slash new_path)
                   | None => false end in
  if cached_ok then (st, Ret tt) else
  match as_str (py_get movie "path" (JStr "")) with
  | Raise e => (st, Raise e)
  | Ret p =>
  let current_path := rstrip_slash p in
  if String.eqb current_path (rstrip_slash new_path)
  then (set_cache st movie_id (rstrip_slash new_path), Ret tt)
  else
    let '(evs, result) := update_movie_path env movie_id new_path root movies in
    let st := add_events st evs in
    match result with
    | Raise e => (st, Raise e)
    | Ret true => (add_processed (set_cache st movie_id (rstrip_slash new_path)) movie, Ret tt)
    | Ret false => (set_cache st movie_id (rstrip_slash new_path), Ret tt)
    end
  end end end end.

Fixpoint radarr_loop (env : radarr_env) (folder_format : string) (tokens : list string)
    (movies : list obj) (ms : list obj) (st : run_state) : run_state * outcome unit :=
  match ms with
  | [] => (st, Ret tt)
  | movie :: ms' =>
      if cap_reached (count st) then (st, Ret tt)
      else match radarr_step env folder_format tokens movies movie st with
           | (st', Ret _) => radarr_loop env folder_format tokens movies ms' st'
           | (st', Raise e) => (st', Raise e)
           end
  end.

(** [process_radarr(radarr_cache)]; the final [save_radarr_cache] writes
    the [cache] of the returned state. *)
Definition process_radarr (env : radarr_env) (radarr_cache : gmap string string)
    : run_state * outcome unit :=
  let st0 := {| cache := radarr_cache; processed := []; count := 0; trace := [] |} in
  match radarr_folder_format env with
  | None => (st0, Ret tt)
  | Some folder_format =>
      let tokens := get_folder_name_tokens folder_format in
      match tokens with
      | [] => (st0, Ret tt)
      | _ => radarr_loop env folder_format tokens (radarr_movies env) (radarr_movies env) st0
      end
  end.

(* ----------------------------------------------------------------- *)
(** *** Sonarr: [update_series_path] and [process_sonarr] *)

Definition series_removed_keys : list string :=
  ["seriesType"; "cleanTitle"; "sortTitle"; "tags"; "episodeFileCount"; "episodeCount"; "status"].

(** The payload: the fetched record with [path] and [rootFolderPath]
    set and the keys of [series_removed_keys] popped. *)
Definition build_series_payload (series_details : obj) (new_path root_folder_path : string) : obj :=
  foldr delete
    (<["rootFolderPath" := JStr root_folder_path]> (<["path" := JStr new_path]> series_details))
    series_removed_keys.

(** [update_series_path(api_url, api_key, series_id, new_path, root_folder_path)] *)
Definition update_series_path (env : sonarr_env) (series_id : string)
    (new_path root_folder_path : string) : list event * outcome bool :=
  match sonarr_series_details env series_id with
  | None => ([], Ret false)
  | Some series_details =>
  if bool_decide (series_details = ∅) then ([], Ret false) else
  match as_str (py_get series_details "path" (JStr "")) with
  | Raise e => ([], Raise e)
  | Ret p =>
  if String.eqb (rstrip_slash p) (rstrip_slash new_path) then ([], Ret false)
  else
    let payload := build_series_payload series_details new_path root_folder_path in
    if DRY_RUN then ([], Ret true)
    else match sonarr_put env series_id with
         | PutOk => ([SeriesPut series_id payload; SeriesRescan series_id], Ret true)
         | _ => ([SeriesPut series_id payload], Ret false)
         end
  end
  end.

(** [any(root_folder_path == folder.get("path", "").rstrip("/") for folder in root_folders)] *)
Fixpoint sonarr_root_known (root_folders : list obj) (root_folder_path : string) : outcome bool :=
  match root_folders with
  | [] => Ret false
  | folder :: fs =>
      let! p := as_str (py_get folder "path" (JStr "")) in
      if String.eqb root_folder_path (rstrip_slash p) then Ret true
      else sonarr_root_known fs root_folder_path
  end.

(** One iteration of [for series in series_list] after the cap check;
    [series_id] is [str(series["id"])]. *)
Definition sonarr_step (env : sonarr_env) (tokens : list string)
    (series : obj) (series_id : string) (st : run_state) : run_state * outcome unit :=
  if bool_decide (is_Some (cache st !! series_id)) then (st, Ret tt) else
  match extract_series_token_values series tokens with
  | Raise e => (st, Raise e)
  | Ret token_values =>
  match as_str (py_get series "rootFolderPath" (JStr "/media/Series")) with
  | Raise e => (st, Raise e)
  | Ret r =>
  let root_folder_path := rstrip_slash r in
  match sonarr_root_known (sonarr_root_folders env) root_folder_path with
  | Raise e => (st, Raise e)
  | Ret false => (add_events st [SeriesRootFolderInvalid series_id], Ret tt)
  | Ret true =>
  match sonarr_folder_format env with
  | None => (st, Raise "AttributeError")  (* None.replace in generate_series_path *)
  | Some folder_format =>
  let new_path := generate_series_path root_folder_path folder_format token_values in
  match as_str (py_get series "path" (JStr "")) with
  | Raise e => (st, Raise e)
  | Ret p =>
  if String.eqb (rstrip_slash p) (rstrip_slash new_path)
  then (set_cache st series_id (rstrip_slash new_path), Ret tt)
  else
    let '(evs, result) := update_series_path env series_id new_path root_folder_path in
    let st := add_events st evs in
    match result with
    | Raise e => (st, Raise e)
    | Ret b =>
        let st := set_cache st series_id (rstrip_slash new_path) in
        if b && negb (bool_decide (series ∈ processed st))
        then (add_processed st series, Ret tt)
        else (st, Ret tt)
    end
  end end end end end.

Fixpoint sonarr_loop (env : sonarr_env) (tokens : list string) (ss : list obj)
    (st : run_state) : run_state * outcome unit :=
  match ss with
  | [] => (st, Ret tt)
  | series :: ss' =>
      match py_getitem series "id" with
      | Raise e => (st, Raise e)
      | Ret idv =>
          if cap_reached (count st) then (st, Ret tt)
          else match sonarr_step env tokens series (py_str idv) st with
               | (st', Ret _) => sonarr_loop env tokens ss' st'
               | (st', Raise e) => (st', Raise e)
               end
      end
  end.

(** [process_sonarr]: the loop over [get_all_series]; the final
    [wait_for_series_moves] only reads and logs. *)
Definition process_sonarr (env : sonarr_env) (sonarr_cache : gmap string string)
    : run_state * outcome unit :=
  let st0 := {| cache := sonarr_cache; processed := []; count := 0; trace := [] |} in
  let tokens := match sonarr_folder_format env with
                | Some f => get_folder_name_tokens f | None => [] end in
  sonarr_loop env tokens (sonarr_series env) st0.

End Engine.

(* ================================================================= *)
(** ** Concrete services used by the examples *)

(** The movie of scenario A as returned by [GET /movie/1]. *)
Definition scenario_details : obj :=
  list_to_map [("id", JInt 1); ("title", JStr "Movie"); ("sortTitle", JStr "movie");
               ("year", JInt 2010); ("tmdbId", JInt 12345); ("imdbId", JStr "tt0000001");
               ("monitored", JBool true); ("qualityProfileId", JInt 4);
               ("minimumAvailability", JStr "released"); ("tags", JRaw "[3]" true);
               ("rootFolderPath", JStr "/data/movies");
               ("path", JStr "/data/movies/Movie/"); ("hasFile", JBool true)].

(** A Radarr with the given root folders, whose PUT succeeds when
    [put_ok] and whose movie-file check answers [files]; its log is
    empty. *)
Definition scenario_env_with (movies : list obj) (details : string -> option obj)
    (roots : list obj) (put_ok files : bool) : radarr_env := {|
  radarr_folder_format := Some scenario_format;
  radarr_movies := movies;
  radarr_root_folders := roots;
  radarr_movie_details := details;
  radarr_put_ok := fun _ => put_ok;
  radarr_movie_files := fun _ _ => files;
  radarr_log_page := fun _ _ => Some [];
  radarr_now := 0
|}.

Definition scenario_roots : list obj := [{[ "path" := JStr "/data/movies/" ]}].

Definition scenario_lookup (id : string) : option obj :=
  if String.eqb id "1" then Some scenario_details else None.

Definition scenario_env (put_ok files : bool) : radarr_env :=
  scenario_env_with [scenario_movie] scenario_lookup scenario_roots put_ok files.

Definition ascii_unidecode (s : string) : string := s.

Example scenario_A_run :
  let '(st, r) := process_radarr false 0 ascii_unidecode (scenario_env true true) ∅ in
  r = Ret tt /\ cache st !! "1" = Some "/data/movies/Movie (2010) 12345"
  /\ length (trace st) = 1%nat /\ count st = 1%Z.
Proof. vm_compute. repeat split; reflexivity. Qed.

Example scenario_B_run :
  let m := <["path" := JStr "/data/movies/Movie (2010) 12345/"]> scenario_movie in
  let env := scenario_env true true in
  let '(st, r) := radarr_loop false 0 ascii_unidecode env scenario_format
                    (get_folder_name_tokens scenario_format) [m] [m]
                    {| cache := ∅; processed := []; count := 0; trace := [] |} in
  r = Ret tt /\ cache st !! "1" = Some "/data/movies/Movie (2010) 12345" /\ trace st = [].
Proof. vm_compute. repeat split; reflexivity. Qed.

(* ================================================================= *)
(** ** Properties of the reconciliation loops *)

Section LoopFacts.

Variable DRY_RUN : bool.
Variable WORK_LIMIT : Z.
Variable unidecode : string -> string.

Lemma radarr_loop_cons env fmt tokens movies m ms st :
  cap_reached WORK_LIMIT (count st) = false ->
  radarr_loop DRY_RUN WORK_LIMIT unidecode env fmt tokens movies (m :: ms) st =
  match radarr_step DRY_RUN unidecode env fmt tokens movies m st with
  | (st', Ret _) => radarr_loop DRY_RUN WORK_LIMIT unidecode env fmt tokens movies ms st'
  | (st', Raise e) => (st', Raise e)
  end.
Proof. intros Hcap. simpl. rewrite Hcap. reflexivity. Qed.

Lemma sonarr_loop_cons env tokens s ss st idv :
  py_getitem s "id" = Ret idv ->
  cap_reached WORK_LIMIT (count st) = false ->
  sonarr_loop DRY_RUN WORK_LIMIT env tokens (s :: ss) st =
  match sonarr_step DRY_RUN env tokens s (py_str idv) st with
  | (st', Ret _) => sonarr_loop DRY_RUN WORK_LIMIT env tokens ss st'
  | (st', Raise e) => (st', Raise e)
  end.
Proof. intros Hid Hcap. simpl. rewrite Hid, Hcap. reflexivity. Qed.

(** An entry whose id is a key of the cache is passed over untouched. *)
Lemma radarr_step_cached env fmt tokens movies m st idv :
  py_getitem m "id" = Ret idv ->
  is_Some (cache st !! py_str idv) ->
  radarr_step DRY_RUN unidecode env fmt tokens movies m st = (st, Ret tt).
Proof.
  intros Hid Hc. unfold radarr_step. rewrite Hid.
  rewrite bool_decide_eq_true_2 by exact Hc. reflexivity.
Qed.

Lemma sonarr_step_cached env tokens s sid st :
  is_Some (cache st !! sid) ->
  sonarr_step DRY_RUN env tokens s sid st = (st, Ret tt).
Proof.
  intros Hc. unfold sonarr_step. rewrite bool_decide_eq_true_2 by exact Hc. reflexivity.
Qed.

(** The shape of a Radarr iteration that reaches [update_movie_path]. *)
Lemma radarr_step_update env fmt tokens movies m st idv tv root p evs b :
  py_getitem m "id" = Ret idv ->
  cache st !! py_str idv = None ->
  extract_token_values m tokens = Ret tv ->
  bind_out (py_getitem m "rootFolderPath") as_str = Ret root ->
  as_str (py_get m "path" (JStr "")) = Ret p ->
  rstrip_slash p <> rstrip_slash (generate_new_path root fmt tv) ->
  update_movie_path DRY_RUN unidecode env (py_str idv) (generate_new_path root fmt tv) root movies
    = (evs, Ret b) ->
  radarr_step DRY_RUN unidecode env fmt tokens movies m st =
  (let st1 := set_cache (add_events st evs) (py_str idv)
                (rstrip_slash (generate_new_path root fmt tv)) in
   if b then add_processed st1 m else st1, Ret tt).
Proof.
  intros Hid Hc Htv Hroot Hp Hne Hupd. unfold radarr_step.
  rewrite Hid, Hc. rewrite bool_decide_eq_false_2 by (intros [x Hx]; discriminate).
  rewrite Htv, Hroot, Hp. rewrite (proj2 (String.eqb_neq _ _) Hne).
  rewrite Hupd. destruct b; reflexivity.
Qed.

End LoopFacts.

Section ClaimsLoop.

Variable DRY_RUN : bool.
Variable WORK_LIMIT : Z.
Variable unidecode : string -> string.

Lemma root_folder_known_false folders root :
  Forall (fun f => exists fp, f !! "path" = Some (JStr fp) /\ rstrip_slash fp <> rstrip_slash root)
    folders ->
  root_folder_known folders root = Ret false.
Proof.
  induction 1 as [|f fs [fp [Hf Hne]] _ IH]; [reflexivity|].
  simpl. unfold py_getitem. rewrite Hf. simpl.
  rewrite (proj2 (String.eqb_neq _ _) Hne). exact IH.
Qed.

Lemma root_folder_known_true folders root :
  Forall (fun f => exists fp, f !! "path" = Some (JStr fp)) folders ->
  Exists (fun f => exists fp, f !! "path" = Some (JStr fp) /\ rstrip_slash fp = rstrip_slash root)
    folders ->
  root_folder_known folders root = Ret true.
Proof.
  induction 1 as [|f fs [fp Hf] _ IH]; intros Hex; [inversion Hex|].
  simpl. unfold py_getitem. rewrite Hf. simpl.
  destruct (String.eqb (rstrip_slash fp) (rstrip_slash root)) eqn:E; [reflexivity|].
  apply IH. inversion Hex as [? ? [fp' [Hf' Heq]]|]; subst; [|assumption].
  rewrite Hf in Hf'. injection Hf' as <-. apply String.eqb_neq in E. contradiction.
Qed.

Lemma sonarr_root_known_false folders root :
  Forall (fun f => exists fp, py_get f "path" (JStr "") = JStr fp /\ rstrip_slash fp <> root)
    folders ->
  sonarr_root_known folders root = Ret false.
Proof.
  induction 1 as [|f fs [fp [Hf Hne]] _ IH]; [reflexivity|].
  simpl. rewrite Hf. simpl.
  destruct (String.eqb root (rstrip_slash fp)) eqn:E; [|exact IH].
  apply String.eqb_eq in E. subst. contradiction.
Qed.

(** C1 (as the code does it): an entry whose id is a key of the cache
    is skipped before any path is generated or compared, whatever path
    the cache holds, in Radarr and in Sonarr alike; a stale cached path
    is never re-validated. *)
Theorem C1_cached_entry_skipped :
  (forall env fmt tokens movies m ms st idv,
     py_getitem m "id" = Ret idv ->
     is_Some (cache st !! py_str idv) ->
     cap_reached WORK_LIMIT (count st) = false ->
     radarr_loop DRY_RUN WORK_LIMIT unidecode env fmt tokens movies (m :: ms) st
     = radarr_loop DRY_RUN WORK_LIMIT unidecode env fmt tokens movies ms st) /\
  (forall env tokens s ss st idv,
     py_getitem s "id" = Ret idv ->
     is_Some (cache st !! py_str idv) ->
     cap_reached WORK_LIMIT (count st) = false ->
     sonarr_loop DRY_RUN WORK_LIMIT env tokens (s :: ss) st
     = sonarr_loop DRY_RUN WORK_LIMIT env tokens ss st).
Proof.
  split.
  - intros env fmt tokens movies m ms st idv Hid Hc Hcap.
    rewrite radarr_loop_cons by exact Hcap.
    rewrite (radarr_step_cached DRY_RUN unidecode env fmt tokens movies m st idv Hid Hc).
    reflexivity.
  - intros env tokens s ss st idv Hid Hc Hcap.
    rewrite (sonarr_loop_cons DRY_RUN WORK_LIMIT env tokens s ss st idv Hid Hcap).
    rewrite (sonarr_step_cached DRY_RUN env tokens s (py_str idv) st Hc). reflexivity.
Qed.

(** C9: once an entry passes the cache and current-path checks and
    [update_movie_path] returns (success or failure), its generated path
    without trailing separator is in the cache, the loop goes on, and in
    any later run with that cache every record with the same id (whatever
    its other fields, such as a path changed by the update) is skipped. *)
Theorem C9_failed_update_cached :
  forall env fmt tokens movies m ms st idv tv root p evs b,
    py_getitem m "id" = Ret idv ->
    cache st !! py_str idv = None ->
    extract_token_values m tokens = Ret tv ->
    bind_out (py_getitem m "rootFolderPath") as_str = Ret root ->
    as_str (py_get m "path" (JStr "")) = Ret p ->
    rstrip_slash p <> rstrip_slash (generate_new_path root fmt tv) ->
    cap_reached WORK_LIMIT (count st) = false ->
    update_movie_path DRY_RUN unidecode env (py_str idv) (generate_new_path root fmt tv) root movies
      = (evs, Ret b) ->
    exists st1,
      radarr_loop DRY_RUN WORK_LIMIT unidecode env fmt tokens movies (m :: ms) st
        = radarr_loop DRY_RUN WORK_LIMIT unidecode env fmt tokens movies ms st1 /\
      cache st1 !! py_str idv = Some (rstrip_slash (generate_new_path root fmt tv)) /\
      (forall env' fmt' tokens' movies' m' ms' st2,
         py_getitem m' "id" = Ret idv ->
         cache st2 !! py_str idv = cache st1 !! py_str idv ->
         cap_reached WORK_LIMIT (count st2) = false ->
         radarr_loop DRY_RUN WORK_LIMIT unidecode env' fmt' tokens' movies' (m' :: ms') st2
         = radarr_loop DRY_RUN WORK_LIMIT unidecode env' fmt' tokens' movies' ms' st2).
Proof.
  intros env fmt tokens movies m ms st idv tv root p evs b Hid Hc Htv Hroot Hp Hne Hcap Hupd.
  set (st1 := let st1 := set_cache (add_events st evs) (py_str idv)
                (rstrip_slash (generate_new_path root fmt tv)) in
              if b then add_processed st1 m else st1).
  assert (Hst1 : cache st1 !! py_str idv = Some (rstrip_slash (generate_new_path root fmt tv))).
  { subst st1. destruct b; simpl; apply lookup_insert_eq. }
  exists st1. split; [|split; [exact Hst1|]].
  - rewrite radarr_loop_cons by exact Hcap.
    erewrite radarr_step_update by eassumption. reflexivity.
  - intros env' fmt' tokens' movies' m' ms' st2 Hid' H2 Hcap2.
    rewrite radarr_loop_cons by exact Hcap2.
    rewrite (radarr_step_cached DRY_RUN unidecode env' fmt' tokens' movies' m' st2 idv Hid')
      by (rewrite H2, Hst1; eexists; reflexivity).
    reflexivity.
Qed.

(** C5: an entry whose current path differs from the generated path and
    whose root folder is none of the configured root folders (compared
    without trailing separators) gets a root-folder error, no update
    request, and the loop goes on with the next entry; in Radarr and in
    Sonarr. *)
Theorem C5_unknown_root_no_update :
  (forall env fmt tokens movies m ms st idv tv root p d p0,
     py_getitem m "id" = Ret idv ->
     cache st !! py_str idv = None ->
     extract_token_values m tokens = Ret tv ->
     bind_out (py_getitem m "rootFolderPath") as_str = Ret root ->
     as_str (py_get m "path" (JStr "")) = Ret p ->
     rstrip_slash p <> rstrip_slash (generate_new_path root fmt tv) ->
     radarr_movie_details env (py_str idv) = Some d ->
     as_str (py_get d "path" (JStr "")) = Ret p0 ->
     rstrip_slash p0 <> rstrip_slash (generate_new_path root fmt tv) ->
     Forall (fun f => exists fp, f !! "path" = Some (JStr fp) /\ rstrip_slash fp <> rstrip_slash root)
       (radarr_root_folders env) ->
     cap_reached WORK_LIMIT (count st) = false ->
     radarr_loop DRY_RUN WORK_LIMIT unidecode env fmt tokens movies (m :: ms) st
     = radarr_loop DRY_RUN WORK_LIMIT unidecode env fmt tokens movies ms
         (set_cache (add_events st [MovieRootFolderMissing (py_str idv)]) (py_str idv)
            (rstrip_slash (generate_new_path root fmt tv)))) /\
  (forall env tokens s ss st idv tv r,
     py_getitem s "id" = Ret idv ->
     cache st !! py_str idv = None ->
     extract_series_token_values s tokens = Ret tv ->
     as_str (py_get s "rootFolderPath" (JStr "/media/Series")) = Ret r ->
     Forall (fun f => exists fp, py_get f "path" (JStr "") = JStr fp /\
                                 rstrip_slash fp <> rstrip_slash r)
       (sonarr_root_folders env) ->
     cap_reached WORK_LIMIT (count st) = false ->
     sonarr_loop DRY_RUN WORK_LIMIT env tokens (s :: ss) st
     = sonarr_loop DRY_RUN WORK_LIMIT env tokens ss
         (add_events st [SeriesRootFolderInvalid (py_str idv)])).
Proof.
  split.
  - intros env fmt tokens movies m ms st idv tv root p d p0
      Hid Hc Htv Hroot Hp Hne Hd Hp0 Hne0 Hfolders Hcap.
    assert (Hupd : update_movie_path DRY_RUN unidecode env (py_str idv)
                     (generate_new_path root fmt tv) root movies
                   = ([MovieRootFolderMissing (py_str idv)], Ret false)).
    { unfold update_movie_path. rewrite Hd, Hp0.
      rewrite (proj2 (String.eqb_neq _ _) Hne0).
      rewrite root_folder_known_false by exact Hfolders. reflexivity. }
    rewrite radarr_loop_cons by exact Hcap.
    erewrite radarr_step_update by eassumption. reflexivity.
  - intros env tokens s ss st idv tv r Hid Hc Htv Hr Hfolders Hcap.
    rewrite (sonarr_loop_cons DRY_RUN WORK_LIMIT env tokens s ss st idv Hid Hcap).
    unfold sonarr_step. rewrite Hc.
    rewrite bool_decide_eq_false_2 by (intros [x Hx]; discriminate).
    rewrite Htv, Hr. rewrite sonarr_root_known_false by exact Hfolders. reflexivity.
Qed.

End ClaimsLoop.

Section ClaimsCap.
Local Open Scope Z_scope.

Variable DRY_RUN : bool.
Variable WORK_LIMIT : Z.
Variable unidecode : string -> string.

Lemma radarr_step_count env fmt tokens movies m st :
  count st <= count (fst (radarr_step DRY_RUN unidecode env fmt tokens movies m st)) <= count st + 1.
Proof.
  unfold radarr_step. repeat case_match; simpl; lia.
Qed.

Lemma verify_loop_exhausted env movie_id movies_to_process attempt fuel :
  (forall a, (attempt <= a < attempt + fuel)%nat -> radarr_movie_files env movie_id a = false) ->
  verify_loop unidecode env movie_id movies_to_process attempt fuel = ([], Ret false).
Proof.
  revert attempt. induction fuel as [|fuel IH]; intros attempt Hf; [reflexivity|].
  simpl. rewrite Hf by lia. apply IH. intros a Ha. apply Hf. lia.
Qed.

(** C4: after an accepted update, when every file check of the
    verification loop fails, [update_movie_path] returns failure (no
    exception) having sent the update and no rescan; the loop records
    the requested path in the cache and goes on with the next entry. *)
Theorem C4_timeout_cached_no_rescan :
  forall env fmt tokens movies m ms st idv tv root p d p0 q,
    DRY_RUN = false ->
    py_getitem m "id" = Ret idv ->
    cache st !! py_str idv = None ->
    extract_token_values m tokens = Ret tv ->
    bind_out (py_getitem m "rootFolderPath") as_str = Ret root ->
    as_str (py_get m "path" (JStr "")) = Ret p ->
    rstrip_slash p <> rstrip_slash (generate_new_path root fmt tv) ->
    radarr_movie_details env (py_str idv) = Some d ->
    d <> ∅ ->
    as_str (py_get d "path" (JStr "")) = Ret p0 ->
    rstrip_slash p0 <> rstrip_slash (generate_new_path root fmt tv) ->
    Forall (fun f => exists fp, f !! "path" = Some (JStr fp)) (radarr_root_folders env) ->
    Exists (fun f => exists fp, f !! "path" = Some (JStr fp) /\ rstrip_slash fp = rstrip_slash root)
      (radarr_root_folders env) ->
    py_get d "qualityProfileId" (JInt 0) = JInt q -> 0 < q ->
    is_Some (d !! "id") -> is_Some (d !! "title") ->
    is_Some (d !! "monitored") -> is_Some (d !! "tmdbId") ->
    radarr_put_ok env (py_str idv) = true ->
    (forall a, (a < max_attempts)%nat -> radarr_movie_files env (py_str idv) a = false) ->
    cap_reached WORK_LIMIT (count st) = false ->
    exists payload,
      update_movie_path DRY_RUN unidecode env (py_str idv) (generate_new_path root fmt tv) root movies
        = ([MoviePut (py_str idv) payload], Ret false) /\
      radarr_loop DRY_RUN WORK_LIMIT unidecode env fmt tokens movies (m :: ms) st
        = radarr_loop DRY_RUN WORK_LIMIT unidecode env fmt tokens movies ms
            (set_cache (add_events st [MoviePut (py_str idv) payload]) (py_str idv)
               (rstrip_slash (generate_new_path root fmt tv))).
Proof.
  intros env fmt tokens movies m ms st idv tv root p d p0 q HD Hid Hc Htv Hroot Hp Hne
    Hd Hd0 Hp0 Hne0 Hwf Hex Hq Hq0 [i Hi] [t Ht] [mo Hmo] [tm Htm] Hput Hfiles Hcap.
  set (np := generate_new_path root fmt tv) in *.
  set (payload := list_to_map
    [("id", i); ("title", t); ("sortTitle", py_get d "sortTitle" (JStr ""));
     ("year", py_get d "year" (JStr "")); ("path", JStr np); ("monitored", mo);
     ("qualityProfileId", py_get d "qualityProfileId" (JInt 0));
     ("metadataProfileId", py_get d "metadataProfileId" JNull);
     ("tmdbId", tm); ("imdbId", py_get d "imdbId" (JStr ""))] : obj).
  assert (Hupd : update_movie_path DRY_RUN unidecode env (py_str idv) np root movies
                 = ([MoviePut (py_str idv) payload], Ret false)).
  { unfold update_movie_path. rewrite Hd, Hp0.
    rewrite (proj2 (String.eqb_neq _ _) Hne0).
    rewrite root_folder_known_true by assumption.
    rewrite bool_decide_eq_false_2 by exact Hd0.
    rewrite Hq. unfold check_quality_profile. rewrite (proj2 (Z.leb_gt q 0) Hq0).
    unfold build_movie_payload, py_getitem. rewrite Hi, Ht, Hmo, Htm. cbn [bind_out].
    rewrite HD, Hput. cbn [negb].
    rewrite verify_loop_exhausted by (intros a Ha; apply Hfiles; unfold max_attempts in *; lia).
    reflexivity. }
  exists payload. split; [exact Hupd|].
  rewrite radarr_loop_cons by exact Hcap.
  erewrite radarr_step_update by eassumption. reflexivity.
Qed.

Lemma radarr_step_count_success env fmt tokens movies m st st' r :
  radarr_step DRY_RUN unidecode env fmt tokens movies m st = (st', r) ->
  count st' = count st \/
  (count st' = count st + 1 /\
   exists idv tv root evs,
     py_getitem m "id" = Ret idv /\ extract_token_values m tokens = Ret tv /\
     bind_out (py_getitem m "rootFolderPath") as_str = Ret root /\
     update_movie_path DRY_RUN unidecode env (py_str idv) (generate_new_path root fmt tv) root movies
     = (evs, Ret true)).
Proof.
  unfold radarr_step. intros H.
  destruct (py_getitem m "id") as [idv|e] eqn:Hid; [|injection H as <- _; left; reflexivity].
  case_bool_decide; [injection H as <- _; left; reflexivity|].
  destruct (extract_token_values m tokens) as [tv|e] eqn:Htv; [|injection H as <- _; left; reflexivity].
  destruct (bind_out (py_getitem m "rootFolderPath") as_str) as [root|e] eqn:Hr;
    [|injection H as <- _; left; reflexivity].
  destruct (match cache st !! py_str idv with | Some _ => _ | None => false end);
    [injection H as <- _; left; reflexivity|].
  destruct (as_str (py_get m "path" (JStr ""))) as [p|e]; [|injection H as <- _; left; reflexivity].
  destruct (String.eqb _ _); [injection H as <- _; left; reflexivity|].
  destruct (update_movie_path DRY_RUN unidecode env (py_str idv) (generate_new_path root fmt tv) root movies)
    as [evs [[|]|e]] eqn:Hu; injection H as <- _.
  - right. split; [reflexivity|]. exists idv, tv, root, evs. auto.
  - left. reflexivity.
  - left. reflexivity.
Qed.

Lemma radarr_loop_count_no_success env fmt tokens movies ms st :
  (forall id np root evs, update_movie_path DRY_RUN unidecode env id np root movies <> (evs, Ret true)) ->
  count (fst (radarr_loop DRY_RUN WORK_LIMIT unidecode env fmt tokens movies ms st)) = count st.
Proof.
  intros Hno. revert st. induction ms as [|m ms IH]; intros st; [reflexivity|].
  cbn [radarr_loop]. destruct (cap_reached WORK_LIMIT (count st)); [reflexivity|].
  destruct (radarr_step DRY_RUN unidecode env fmt tokens movies m st) as [st' r] eqn:Hs.
  destruct (radarr_step_count_success _ _ _ _ _ _ _ _ Hs)
    as [Hc|(_ & idv & tv & root & evs & _ & _ & _ & Hu)]; [|exfalso; exact (Hno _ _ _ _ Hu)].
  destruct r; simpl; [rewrite IH|]; exact Hc.
Qed.

(** C6 (as the code does it): with [WORK_LIMIT] = N > 0 the counter
    never exceeds N, and once it has reached N the loop stops: entries
    after that point are neither updated nor written to the cache.  The
    counter counts only updates that returned success: a step raises it
    by one only when [update_movie_path] returned [True] for that entry,
    and a step whose update returned [False] leaves it unchanged.  So a
    run whose updates all fail never reaches the cap, whatever N is, and
    sends an update request for every entry that needs one. *)
Theorem C6_cap_counts_successes :
  (forall env fmt tokens movies ms st,
     0 < WORK_LIMIT -> count st <= WORK_LIMIT ->
     count (fst (radarr_loop DRY_RUN WORK_LIMIT unidecode env fmt tokens movies ms st))
       <= WORK_LIMIT) /\
  (forall env fmt tokens movies ms1 ms2 st,
     0 < WORK_LIMIT ->
     WORK_LIMIT <= count (fst (radarr_loop DRY_RUN WORK_LIMIT unidecode env fmt tokens movies ms1 st)) ->
     radarr_loop DRY_RUN WORK_LIMIT unidecode env fmt tokens movies (ms1 ++ ms2) st
     = radarr_loop DRY_RUN WORK_LIMIT unidecode env fmt tokens movies ms1 st) /\
  (forall env fmt tokens movies m st st' r,
     radarr_step DRY_RUN unidecode env fmt tokens movies m st = (st', r) ->
     count st' = count st + 1 ->
     exists idv tv root evs,
       py_getitem m "id" = Ret idv /\ extract_token_values m tokens = Ret tv /\
       bind_out (py_getitem m "rootFolderPath") as_str = Ret root /\
       update_movie_path DRY_RUN unidecode env (py_str idv) (generate_new_path root fmt tv) root movies
       = (evs, Ret true)) /\
  (forall env fmt tokens movies m st idv tv root evs,
     py_getitem m "id" = Ret idv -> extract_token_values m tokens = Ret tv ->
     bind_out (py_getitem m "rootFolderPath") as_str = Ret root ->
     update_movie_path DRY_RUN unidecode env (py_str idv) (generate_new_path root fmt tv) root movies
     = (evs, Ret false) ->
     count (fst (radarr_step DRY_RUN unidecode env fmt tokens movies m st)) = count st) /\
  (forall env fmt tokens movies ms st,
     (forall id np root evs, update_movie_path DRY_RUN unidecode env id np root movies <> (evs, Ret true)) ->
     count (fst (radarr_loop DRY_RUN WORK_LIMIT unidecode env fmt tokens movies ms st)) = count st).
Proof.
  split; [|split; [|split; [|split]]].
  - intros env fmt tokens movies ms. induction ms as [|m ms IH]; intros st Hpos Hle; [exact Hle|].
    simpl. destruct (cap_reached WORK_LIMIT (count st)) eqn:Ecap; [exact Hle|].
    unfold cap_reached in Ecap. apply andb_false_iff in Ecap.
    assert (Hlt : count st < WORK_LIMIT).
    { destruct Ecap as [E|E]; [apply Z.ltb_ge in E; lia | apply Z.leb_gt in E; lia]. }
    pose proof (radarr_step_count env fmt tokens movies m st) as Hs.
    destruct (radarr_step DRY_RUN unidecode env fmt tokens movies m st) as [st' [u|e]] eqn:Estep;
      simpl in Hs.
    + apply IH; lia.
    + simpl. lia.
  - intros env fmt tokens movies ms1. induction ms1 as [|m ms1 IH]; intros ms2 st Hpos Hge.
    + simpl in Hge. destruct ms2 as [|m2 ms2]; [reflexivity|].
      simpl. unfold cap_reached. rewrite (proj2 (Z.ltb_lt 0 WORK_LIMIT) Hpos).
      rewrite (proj2 (Z.leb_le _ _) Hge). reflexivity.
    + simpl in Hge |- *. destruct (cap_reached WORK_LIMIT (count st)); [reflexivity|].
      destruct (radarr_step DRY_RUN unidecode env fmt tokens movies m st) as [st' [u|e]];
        [apply IH; assumption | reflexivity].
  - intros env fmt tokens movies m st st' r Hs Hc.
    destruct (radarr_step_count_success _ _ _ _ _ _ _ _ Hs) as [Hc'|(_ & Hx)]; [lia|exact Hx].
  - intros env fmt tokens movies m st idv tv root evs Hid Htv Hr Hu.
    destruct (radarr_step DRY_RUN unidecode env fmt tokens movies m st) as [st' r] eqn:Hs.
    destruct (radarr_step_count_success _ _ _ _ _ _ _ _ Hs)
      as [Hc|(_ & idv' & tv' & root' & evs' & Hid' & Htv' & Hr' & Hu')]; [exact Hc|].
    rewrite Hid in Hid'. injection Hid' as <-. rewrite Htv in Htv'. injection Htv' as <-.
    rewrite Hr in Hr'. injection Hr' as <-. rewrite Hu in Hu'. discriminate.
  - intros env fmt tokens movies ms st Hno. apply radarr_loop_count_no_success. exact Hno.
Qed.

End ClaimsCap.

(** C10: [generate_new_path] elides a token whenever the text of its
    value contains ["Unknown"], exactly as it elides the
    ["Unknown-<token>"] sentinel; a film titled "The Unknown" loses its
    title in the generated path. *)
Theorem C10_unknown_substring_elided :
  (forall folder_format token value rest,
     py_contains "Unknown" (py_str value) = true ->
     substitute_tokens folder_format ((token, value) :: rest)
     = substitute_tokens (py_replace token "" folder_format) rest /\
     substitute_tokens folder_format ((token, value) :: rest)
     = substitute_tokens folder_format
         ((token, JStr ("Unknown-" ++ strip_braces token)) :: rest)) /\
  (let movie := <["title" := JStr "The Unknown"]> scenario_movie in
   movie_token_value movie "{Movie CleanTitle}" = Ret (JStr "The Unknown") /\
   (let! tv := extract_token_values movie (get_folder_name_tokens scenario_format) in
    Ret (generate_new_path "/data/movies" scenario_format tv))
   = Ret "/data/movies/ (2010) 12345/").
Proof.
  split.
  - intros folder_format token value rest H. unfold substitute_tokens. simpl.
    rewrite H. split; reflexivity.
  - vm_compute. split; reflexivity.
Qed.

(* ================================================================= *)
(** ** Concrete runs: witnesses and counterexamples *)

Definition scenario_tokens : list string := get_folder_name_tokens scenario_format.

Definition scenario_tv : list (string * jval) :=
  [("{Movie CleanTitle}", JStr "Movie"); ("{Release Year}", JInt 2010); ("{TmdbId}", JInt 12345)].

Definition scenario_new_path : string := "/data/movies/Movie (2010) 12345/".

(** The body of the PUT request of scenario A. *)
Definition scenario_payload : obj :=
  list_to_map
    [("id", JInt 1); ("title", JStr "Movie"); ("sortTitle", JStr "movie"); ("year", JInt 2010);
     ("path", JStr scenario_new_path); ("monitored", JBool true);
     ("qualityProfileId", JInt 4); ("metadataProfileId", JNull);
     ("tmdbId", JInt 12345); ("imdbId", JStr "tt0000001")].

Definition empty_state (c : gmap string string) : run_state :=
  {| cache := c; processed := []; count := 0; trace := [] |}.

(** A second film, also due for an update. *)
Definition other_movie : obj :=
  list_to_map [("id", JInt 2); ("title", JStr "Other"); ("year", JInt 2001);
               ("tmdbId", JInt 777); ("rootFolderPath", JStr "/data/movies");
               ("path", JStr "/data/movies/Other/"); ("hasFile", JBool true)].

Definition other_details : obj :=
  list_to_map [("id", JInt 2); ("title", JStr "Other"); ("year", JInt 2001);
               ("tmdbId", JInt 777); ("monitored", JBool true); ("qualityProfileId", JInt 4);
               ("rootFolderPath", JStr "/data/movies");
               ("path", JStr "/data/movies/Other/"); ("hasFile", JBool true)].

Definition two_lookup (id : string) : option obj :=
  if String.eqb id "1" then Some scenario_details
  else if String.eqb id "2" then Some other_details else None.

Definition two_env (put_ok files : bool) : radarr_env :=
  scenario_env_with [scenario_movie; other_movie] two_lookup scenario_roots put_ok files.

(** A series of Sonarr under a root folder unknown to Sonarr. *)
Definition scenario_series : obj :=
  list_to_map [("id", JInt 5); ("title", JStr "Show"); ("year", JInt 2010);
               ("tvdbId", JInt 999); ("rootFolderPath", JStr "/tv");
               ("path", JStr "/tv/Show/")].

Definition scenario_sonarr (roots : list obj) : sonarr_env := {|
  sonarr_folder_format := Some "{Series TitleYear}";
  sonarr_series := [scenario_series];
  sonarr_root_folders := roots;
  sonarr_series_details := fun id => if String.eqb id "5" then Some scenario_series else None;
  sonarr_put := fun _ => PutOk
|}.

Lemma C1_witness :
  radarr_loop false 0 ascii_unidecode (scenario_env true true) scenario_format scenario_tokens
    [scenario_movie] [scenario_movie] (empty_state {[ "1" := "/data/movies/Old Name" ]})
  = radarr_loop false 0 ascii_unidecode (scenario_env true true) scenario_format scenario_tokens
    [scenario_movie] [] (empty_state {[ "1" := "/data/movies/Old Name" ]}) /\
  sonarr_loop false 0 (scenario_sonarr []) [] [scenario_series]
    (empty_state {[ "5" := "/tv/Old" ]})
  = sonarr_loop false 0 (scenario_sonarr []) [] [] (empty_state {[ "5" := "/tv/Old" ]}).
Proof.
  split.
  - apply (proj1 (C1_cached_entry_skipped false 0 ascii_unidecode)) with (idv := JInt 1);
      [reflexivity | eexists; reflexivity | reflexivity].
  - apply (proj2 (C1_cached_entry_skipped false 0 ascii_unidecode)) with (idv := JInt 5);
      [reflexivity | eexists; reflexivity | reflexivity].
Defined.

(** C1 as stated fails: the cache holds a path for film 1 that differs
    from the generated path, the film's current path differs too, and
    the run leaves it alone: no update request, stale cache kept. *)
Lemma C1_stale_cache_not_revalidated :
  (let! tv := extract_token_values scenario_movie scenario_tokens in
   Ret (generate_new_path "/data/movies" scenario_format tv)) = Ret scenario_new_path /\
  "/data/movies/Old Name" <> rstrip_slash scenario_new_path /\
  rstrip_slash "/data/movies/Movie/" <> rstrip_slash scenario_new_path /\
  (let '(st, r) := process_radarr false 0 ascii_unidecode (scenario_env true true)
                     {[ "1" := "/data/movies/Old Name" ]} in
   r = Ret tt /\ trace st = [] /\ cache st !! "1" = Some "/data/movies/Old Name").
Proof.
  split; [vm_compute; reflexivity|].
  split; [vm_compute; discriminate|].
  split; [vm_compute; discriminate|].
  vm_compute. repeat split; reflexivity.
Qed.

Lemma C9_witness :
  exists st1,
    radarr_loop false 0 ascii_unidecode (scenario_env false true) scenario_format scenario_tokens
      [scenario_movie] [scenario_movie] (empty_state ∅)
    = radarr_loop false 0 ascii_unidecode (scenario_env false true) scenario_format scenario_tokens
      [scenario_movie] [] st1 /\
    cache st1 !! "1" = Some (rstrip_slash scenario_new_path) /\
    (forall env' fmt' tokens' movies' m' ms' st2,
       py_getitem m' "id" = Ret (JInt 1) ->
       cache st2 !! "1" = cache st1 !! "1" ->
       cap_reached 0 (count st2) = false ->
       radarr_loop false 0 ascii_unidecode env' fmt' tokens' movies' (m' :: ms') st2
       = radarr_loop false 0 ascii_unidecode env' fmt' tokens' movies' ms' st2).
Proof.
  apply (C9_failed_update_cached false 0 ascii_unidecode (scenario_env false true)
           scenario_format scenario_tokens [scenario_movie] scenario_movie [] (empty_state ∅)
           (JInt 1) scenario_tv "/data/movies" "/data/movies/Movie/"
           [MoviePut "1" scenario_payload] false);
    try (vm_compute; reflexivity).
  vm_compute. discriminate.
Defined.

Lemma C5_witness :
  radarr_loop false 0 ascii_unidecode
    (scenario_env_with [scenario_movie] scenario_lookup [{[ "path" := JStr "/srv/films/" ]}] true true)
    scenario_format scenario_tokens [scenario_movie] [scenario_movie] (empty_state ∅)
  = radarr_loop false 0 ascii_unidecode
    (scenario_env_with [scenario_movie] scenario_lookup [{[ "path" := JStr "/srv/films/" ]}] true true)
    scenario_format scenario_tokens [scenario_movie] []
    (set_cache (add_events (empty_state ∅) [MovieRootFolderMissing "1"]) "1"
       (rstrip_slash scenario_new_path)) /\
  sonarr_loop false 0 (scenario_sonarr [{[ "path" := JStr "/media/tv/" ]}]) [] [scenario_series]
    (empty_state ∅)
  = sonarr_loop false 0 (scenario_sonarr [{[ "path" := JStr "/media/tv/" ]}]) [] []
    (add_events (empty_state ∅) [SeriesRootFolderInvalid "5"]).
Proof.
  split.
  - apply (proj1 (C5_unknown_root_no_update false 0 ascii_unidecode)) with
      (idv := JInt 1) (tv := scenario_tv) (root := "/data/movies") (p := "/data/movies/Movie/")
      (d := scenario_details) (p0 := "/data/movies/Movie/");
      try (vm_compute; reflexivity); try (vm_compute; discriminate).
    repeat constructor. eexists. split; [reflexivity | vm_compute; discriminate].
  - apply (proj2 (C5_unknown_root_no_update false 0 ascii_unidecode)) with
      (idv := JInt 5) (tv := [("{Series TitleYear}", JStr "Show (2010)");
                              ("{ImdbId}", JStr "Unknown-ImdbId"); ("{TvdbId}", JInt 999)])
      (r := "/tv");
      try (vm_compute; reflexivity).
    repeat constructor. eexists. split; [reflexivity | vm_compute; discriminate].
Defined.

Lemma C4_witness :
  exists payload,
    update_movie_path false ascii_unidecode (scenario_env true false) "1" scenario_new_path
      "/data/movies" [scenario_movie]
      = ([MoviePut "1" payload], Ret false) /\
    radarr_loop false 0 ascii_unidecode (scenario_env true false) scenario_format scenario_tokens
      [scenario_movie] [scenario_movie] (empty_state ∅)
    = radarr_loop false 0 ascii_unidecode (scenario_env true false) scenario_format scenario_tokens
      [scenario_movie] []
      (set_cache (add_events (empty_state ∅) [MoviePut "1" payload]) "1"
         (rstrip_slash scenario_new_path)).
Proof.
  apply (C4_timeout_cached_no_rescan false 0 ascii_unidecode (scenario_env true false)
           scenario_format scenario_tokens [scenario_movie] scenario_movie [] (empty_state ∅)
           (JInt 1) scenario_tv "/data/movies" "/data/movies/Movie/" scenario_details
           "/data/movies/Movie/" 4);
    first [ (vm_compute; reflexivity) | (intros H; vm_compute in H; discriminate H)
          | (vm_compute; discriminate) | (eexists; vm_compute; reflexivity)
          | (repeat constructor; eexists; reflexivity)
          | (constructor; eexists; split; reflexivity) | lia ].
Defined.

Lemma C6_witness :
  (count (fst (radarr_loop false 1 ascii_unidecode (two_env true true) scenario_format
                scenario_tokens [scenario_movie; other_movie] [scenario_movie; other_movie]
                (empty_state ∅))) <= 1)%Z /\
  radarr_loop false 1 ascii_unidecode (two_env true true) scenario_format scenario_tokens
    [scenario_movie; other_movie] ([scenario_movie] ++ [other_movie]) (empty_state ∅)
  = radarr_loop false 1 ascii_unidecode (two_env true true) scenario_format scenario_tokens
    [scenario_movie; other_movie] [scenario_movie] (empty_state ∅) /\
  count (fst (radarr_step false ascii_unidecode (scenario_env false true) scenario_format
                scenario_tokens [scenario_movie] scenario_movie (empty_state ∅)))
  = count (empty_state ∅).
Proof.
  split; [|split].
  - apply (proj1 (C6_cap_counts_successes false 1 ascii_unidecode)); simpl; lia.
  - apply (proj1 (proj2 (C6_cap_counts_successes false 1 ascii_unidecode))); [lia|].
    vm_compute. discriminate.
  - apply (proj1 (proj2 (proj2 (proj2 (C6_cap_counts_successes false 1 ascii_unidecode)))))
      with (idv := JInt 1) (tv := scenario_tv) (root := "/data/movies")
           (evs := [MoviePut "1" scenario_payload]); vm_compute; reflexivity.
Defined.

(** C6 as stated fails: with [WORK_LIMIT] = 1 and two films due for an
    update whose PUT requests fail, both updates are sent (failed
    updates are not counted) and both films are written to the cache. *)
Lemma C6_two_updates_under_cap_one :
  let '(st, r) := process_radarr false 1 ascii_unidecode (two_env false true) ∅ in
  r = Ret tt /\ length (filter is_update (trace st)) = 2%nat /\ count st = 0%Z /\
  is_Some (cache st !! "2").
Proof. vm_compute. repeat split; try reflexivity. eexists. reflexivity. Qed.

Lemma C10_witness :
  substitute_tokens "{Movie CleanTitle}" [("{Movie CleanTitle}", JStr "Unknown")]
  = substitute_tokens (py_replace "{Movie CleanTitle}" "" "{Movie CleanTitle}") [] /\
  substitute_tokens "{Movie CleanTitle}" [("{Movie CleanTitle}", JStr "Unknown")]
  = substitute_tokens "{Movie CleanTitle}"
      [("{Movie CleanTitle}", JStr ("Unknown-" ++ strip_braces "{Movie CleanTitle}"))].
Proof. apply (proj1 C10_unknown_substring_elided). reflexivity. Defined.

(* ================================================================= *)
(** ** The bodies of the update requests *)

Definition movie_payload_keys : list string :=
  ["id"; "title"; "sortTitle"; "year"; "path"; "monitored"; "qualityProfileId";
   "metadataProfileId"; "tmdbId"; "imdbId"].

Lemma build_movie_payload_spec d np pl :
  build_movie_payload d np = Ret pl ->
  dom pl = list_to_set movie_payload_keys /\
  pl !! "path" = Some (JStr np) /\
  pl !! "qualityProfileId" = Some (py_get d "qualityProfileId" (JInt 0)) /\
  (forall k, k ∈ ["id"; "title"; "monitored"; "tmdbId"] -> pl !! k = d !! k).
Proof.
  unfold build_movie_payload, py_getitem.
  destruct (d !! "id") as [i|] eqn:Ei; [|discriminate].
  destruct (d !! "title") as [t|] eqn:Et; [|discriminate].
  destruct (d !! "monitored") as [mo|] eqn:Emo; [|discriminate].
  destruct (d !! "tmdbId") as [tm|] eqn:Etm; [|discriminate].
  cbn [bind_out]. intros H. injection H as <-.
  split; [rewrite !dom_insert_L, dom_empty_L; unfold movie_payload_keys; simpl; set_solver|].
  split; [repeat (rewrite lookup_insert_ne by discriminate); apply lookup_insert_eq|].
  split; [repeat (rewrite lookup_insert_ne by discriminate); apply lookup_insert_eq|].
  intros k Hk. set_unfold in Hk. destruct_or! Hk; subst; try contradiction;
    repeat (rewrite lookup_insert_ne by discriminate);
    (rewrite lookup_insert_eq; symmetry; assumption).
Qed.

Lemma lookup_foldr_delete (m : obj) (ks : list string) (k : string) :
  foldr delete m ks !! k = if bool_decide (k ∈ ks) then None else m !! k.
Proof.
  induction ks as [|k' ks IH]; cbn [foldr].
  - rewrite bool_decide_eq_false_2; [reflexivity | set_solver].
  - destruct (decide (k = k')) as [->|Hne].
    + rewrite lookup_delete_eq, bool_decide_eq_true_2 by set_solver. reflexivity.
    + rewrite lookup_delete_ne by congruence. rewrite IH.
      destruct (decide (k ∈ ks)).
      * rewrite !bool_decide_eq_true_2 by set_solver. reflexivity.
      * rewrite !bool_decide_eq_false_2 by set_solver. reflexivity.
Qed.

Lemma build_series_payload_spec d np root k :
  build_series_payload d np root !! k =
  if bool_decide (k ∈ series_removed_keys) then None
  else if String.eqb k "rootFolderPath" then Some (JStr root)
  else if String.eqb k "path" then Some (JStr np)
  else d !! k.
Proof.
  unfold build_series_payload. rewrite lookup_foldr_delete.
  destruct (bool_decide (k ∈ series_removed_keys)); [reflexivity|].
  destruct (String.eqb k "rootFolderPath") eqn:E1.
  - apply String.eqb_eq in E1 as ->. apply lookup_insert_eq.
  - apply String.eqb_neq in E1. rewrite lookup_insert_ne by congruence.
    destruct (String.eqb k "path") eqn:E2.
    + apply String.eqb_eq in E2 as ->. apply lookup_insert_eq.
    + apply String.eqb_neq in E2. rewrite lookup_insert_ne by congruence. reflexivity.
Qed.

Lemma movie_payload_fields d np pl u :
  check_quality_profile (py_get d "qualityProfileId" (JInt 0)) = Ret u ->
  build_movie_payload d np = Ret pl ->
  dom pl = list_to_set movie_payload_keys /\
  pl !! "path" = Some (JStr np) /\
  (forall k, k ∈ ["id"; "title"; "monitored"; "tmdbId"; "qualityProfileId"] ->
             pl !! k = d !! k).
Proof.
  intros Hq Hb.
  destruct (build_movie_payload_spec d np pl Hb) as (Hdom & Hpath & Hqp & Hk).
  split; [exact Hdom|]. split; [exact Hpath|].
  intros k Hkin.
  destruct (decide (k = "qualityProfileId")) as [->|Hne].
  - rewrite Hqp. unfold py_get in *. destruct (d !! "qualityProfileId"); [reflexivity|].
    discriminate.
  - apply Hk. set_solver.
Qed.

Section ClaimsPayload.

Variable DRY_RUN : bool.
Variable unidecode : string -> string.

Lemma verify_loop_no_update env movie_id movies attempt fuel e :
  In e (fst (verify_loop unidecode env movie_id movies attempt fuel)) -> is_update e = false.
Proof.
  revert attempt. induction fuel as [|fuel IH]; intros attempt Hin; [destruct Hin|].
  simpl in Hin. destruct (radarr_movie_files env movie_id attempt).
  - repeat case_match; simpl in Hin; try contradiction;
      destruct Hin as [<-|[]]; reflexivity.
  - exact (IH _ Hin).
Qed.

(** C3 (as the code does it): the Radarr update body has exactly the
    ten keys of [movie_payload_keys], with the new path and the id,
    title, monitoring flag, TMDB id and quality profile of the freshly
    fetched record, and nothing else of that record; the Sonarr body is
    the freshly fetched record with [path] and [rootFolderPath] set and
    the keys of [series_removed_keys] (among them [tags]) removed. *)
Theorem C3_update_body_fields :
  (forall env movie_id np root movies evs r movie_id' pl,
     update_movie_path DRY_RUN unidecode env movie_id np root movies = (evs, r) ->
     In (MoviePut movie_id' pl) evs ->
     exists d, radarr_movie_details env movie_id = Some d /\
       dom pl = list_to_set movie_payload_keys /\
       pl !! "path" = Some (JStr np) /\
       (forall k, k ∈ ["id"; "title"; "monitored"; "tmdbId"; "qualityProfileId"] ->
                  pl !! k = d !! k)) /\
  (forall env series_id np root evs r series_id' pl,
     update_series_path DRY_RUN env series_id np root = (evs, r) ->
     In (SeriesPut series_id' pl) evs ->
     exists d, sonarr_series_details env series_id = Some d /\
       forall k, pl !! k =
         if bool_decide (k ∈ series_removed_keys) then None
         else if String.eqb k "rootFolderPath" then Some (JStr root)
         else if String.eqb k "path" then Some (JStr np)
         else d !! k).
Proof.
  split.
  - intros env movie_id np root movies evs r movie_id' pl H Hin.
    unfold update_movie_path in H.
    destruct (radarr_movie_details env movie_id) as [d|] eqn:Ed;
      [|injection H as <- _; destruct Hin].
    exists d. split; [reflexivity|].
    cbv iota in H.
    destruct (as_str (py_get d "path" (JStr ""))) as [p0|e];
      [|injection H as <- _; destruct Hin].
    destruct (String.eqb _ _); [injection H as <- _; destruct Hin|].
    destruct (root_folder_known _ _) as [[|]|e];
      [| injection H as <- _; destruct Hin as [Hin|[]]; discriminate
       | injection H as <- _; destruct Hin].
    destruct (bool_decide (d = ∅)); [injection H as <- _; destruct Hin|].
    destruct (check_quality_profile _) as [u|e] eqn:Hq; [|injection H as <- _; destruct Hin].
    destruct (build_movie_payload d np) as [payload|e] eqn:Hb;
      [|injection H as <- _; destruct Hin].
    destruct DRY_RUN; [injection H as <- _; destruct Hin|].
    destruct (negb _).
    { injection H as <- _. destruct Hin as [Hin|[]]. injection Hin as -> ->.
      eapply movie_payload_fields; eassumption. }
    destruct (verify_loop _ _ _ _ _) as [evs' r'] eqn:Hv. injection H as <- _.
    destruct Hin as [Hin|Hin].
    + injection Hin as -> ->. eapply movie_payload_fields; eassumption.
    + assert (He := verify_loop_no_update env movie_id movies 0 max_attempts
                      (MoviePut movie_id' pl)).
      rewrite Hv in He. specialize (He Hin). discriminate.
  - intros env series_id np root evs r series_id' pl H Hin.
    unfold update_series_path in H.
    destruct (sonarr_series_details env series_id) as [d|] eqn:Ed;
      [|injection H as <- _; destruct Hin].
    exists d. split; [reflexivity|].
    destruct (bool_decide (d = ∅)); [injection H as <- _; destruct Hin|].
    destruct (as_str (py_get d "path" (JStr ""))) as [p0|e];
      [|injection H as <- _; destruct Hin].
    destruct (String.eqb _ _); [injection H as <- _; destruct Hin|].
    destruct DRY_RUN; [injection H as <- _; destruct Hin|].
    intros k.
    destruct (sonarr_put env series_id); injection H as <- _;
      repeat (destruct Hin as [Hin|Hin]; [try discriminate|]); try contradiction;
      injection Hin as _ <-; apply build_series_payload_spec.
Qed.

End ClaimsPayload.

(** A series of Sonarr carrying tags. *)
Definition tagged_series : obj := <["tags" := JRaw "[7]" true]> scenario_series.

Definition tagged_sonarr : sonarr_env := {|
  sonarr_folder_format := Some "{Series TitleYear}";
  sonarr_series := [tagged_series];
  sonarr_root_folders := [{[ "path" := JStr "/tv" ]}];
  sonarr_series_details := fun id => if String.eqb id "5" then Some tagged_series else None;
  sonarr_put := fun _ => PutOk
|}.

Lemma C3_witness :
  update_movie_path false ascii_unidecode (scenario_env false false) "1" scenario_new_path
    "/data/movies" [scenario_movie] = ([MoviePut "1" scenario_payload], Ret false) /\
  exists d, radarr_movie_details (scenario_env false false) "1" = Some d /\
    dom scenario_payload = list_to_set movie_payload_keys /\
    scenario_payload !! "path" = Some (JStr scenario_new_path) /\
    (forall k, k ∈ ["id"; "title"; "monitored"; "tmdbId"; "qualityProfileId"] ->
               scenario_payload !! k = d !! k).
Proof.
  split; [vm_compute; reflexivity|].
  apply (proj1 (C3_update_body_fields false ascii_unidecode)
           (scenario_env false false) "1" scenario_new_path "/data/movies" [scenario_movie]
           [MoviePut "1" scenario_payload] (Ret false) "1" scenario_payload);
    [vm_compute; reflexivity | left; reflexivity].
Defined.

(** C3 fails as stated: the record of the movie carries [tags] and
    [minimumAvailability], and the series carries [tags]; the bodies
    sent by the update requests carry none of them. *)
Lemma C3_fields_dropped_from_body :
  scenario_details !! "tags" = Some (JRaw "[3]" true) /\
  scenario_details !! "minimumAvailability" = Some (JStr "released") /\
  update_movie_path false ascii_unidecode (scenario_env false false) "1" scenario_new_path
    "/data/movies" [scenario_movie] = ([MoviePut "1" scenario_payload], Ret false) /\
  scenario_payload !! "tags" = None /\ scenario_payload !! "minimumAvailability" = None /\
  tagged_series !! "tags" = Some (JRaw "[7]" true) /\
  update_series_path false tagged_sonarr "5" "/tv/Show (2010)/" "/tv"
  = ([SeriesPut "5" (build_series_payload tagged_series "/tv/Show (2010)/" "/tv");
      SeriesRescan "5"], Ret true) /\
  build_series_payload tagged_series "/tv/Show (2010)/" "/tv" !! "tags" = None.
Proof. vm_compute. repeat split; reflexivity. Qed.

(* ================================================================= *)
(** ** Separators of the generated paths *)

Lemma rstrip_by_idem p s : rstrip_by p (rstrip_by p s) = rstrip_by p s.
Proof.
  induction s as [|c s IH]; [reflexivity|]. cbn [rstrip_by].
  destruct (String.eqb (rstrip_by p s) "" && p c) eqn:E; [reflexivity|].
  cbn [rstrip_by]. rewrite IH, E. reflexivity.
Qed.

Lemma rstrip_slash_idem s : rstrip_slash (rstrip_slash s) = rstrip_slash s.
Proof. apply rstrip_by_idem. Qed.

Lemma generate_new_path_trailing root fmt tv :
  exists y, generate_new_path root fmt tv = y ++ "/" /\ rstrip_slash y = y.
Proof.
  unfold generate_new_path. eexists. split; [reflexivity|]. apply rstrip_slash_idem.
Qed.

(** A movie and a series without an IMDb id, under a template that
    starts with [{ImdbId}/]. *)
Definition imdb_format : string := "{ImdbId}/{Movie CleanTitle} ({Release Year})".
Definition series_imdb_format : string := "{ImdbId}/{Series TitleYear}".

(** C8 (code slip): the movie generator ends its path with exactly one
    separator, but it collapses ["//"] in one left-to-right pass, so a
    run of three separators keeps two; the series generator collapses
    nothing, so an elided leading token leaves a doubled separator, and
    a template that resolves to nothing ends the path with two. *)
Theorem C8_double_separator_kept :
  (forall root fmt tv,
     exists y, generate_new_path root fmt tv = y ++ "/" /\ rstrip_slash y = y) /\
  bind_out (extract_token_values scenario_movie (get_folder_name_tokens imdb_format))
    (fun tv => Ret (generate_new_path "/data/movies/" imdb_format tv))
  = Ret "/data/movies//Movie (2010)/" /\
  bind_out (extract_series_token_values scenario_series (get_folder_name_tokens series_imdb_format))
    (fun tv => Ret (generate_series_path "/tv" series_imdb_format tv))
  = Ret "/tv//Show (2010)/" /\
  bind_out (extract_series_token_values scenario_series (get_folder_name_tokens "{ImdbId}"))
    (fun tv => Ret (generate_series_path "/tv" "{ImdbId}" tv))
  = Ret "/tv//" /\
  py_contains "//" "/data/movies//Movie (2010)/" = true /\
  py_contains "//" "/tv//Show (2010)/" = true.
Proof.
  split; [exact generate_new_path_trailing|].
  vm_compute. repeat split; reflexivity.
Qed.

(* ================================================================= *)
(** ** The log scan of the Move-Completion Verifier *)

(** The similarity of [fuzz.ratio]: twice the length of a longest
    common subsequence over the sum of the lengths, in percent.  A row
    of the table holds the answer for every suffix of [b]. *)
Fixpoint lcs_step (x : ascii) (b : list ascii) (prev : list nat) : list nat :=
  match b, prev with
  | y :: b', p0 :: prest =>
      let rest := lcs_step x b' prest in
      (if Ascii.eqb x y then S (hd 0%nat prest) else Nat.max p0 (hd 0%nat rest)) :: rest
  | _, _ => [0%nat]
  end.

Fixpoint lcs_row (a b : list ascii) : list nat :=
  match a with
  | [] => repeat 0%nat (S (length b))
  | x :: a' => lcs_step x b (lcs_row a' b)
  end.

Definition lcs (a b : string) : nat :=
  hd 0%nat (lcs_row (list_ascii_of_string a) (list_ascii_of_string b)).

(** [ratio(a, b) >= threshold], the test the specification describes. *)
Definition spec_fuzzy_match (a b : string) (threshold : nat) : bool :=
  Nat.leb (threshold * (String.length a + String.length b)) (200 * lcs a b).

Section ClaimsVerifier.

Variable unidecode : string -> string.

Lemma str_mem_In x l : str_mem x l = true <-> In x l.
Proof.
  unfold str_mem. rewrite existsb_exists. split.
  - intros (y & Hy & E). apply String.eqb_eq in E. subst. exact Hy.
  - intros H. exists x. split; [exact H | apply String.eqb_refl].
Qed.

Lemma set_add_In x y l : In y (set_add x l) <-> y = x \/ In y l.
Proof.
  unfold set_add. destruct (str_mem x l) eqn:E.
  - apply str_mem_In in E. split; [tauto|]. intros [->|H]; assumption.
  - rewrite in_app_iff. simpl. intuition congruence.
Qed.

Lemma normalize_title_str s : exists t, normalize_title unidecode (JStr s) = Ret t.
Proof. unfold normalize_title. destruct (negb (truthy (JStr s))); eexists; reflexivity. Qed.

(** The records the scan accepts. *)
Definition accepted (threshold : Z) (expected : list string) (log : log_record) (x : string)
    : Prop :=
  (threshold <= log_time log)%Z /\
  py_contains moved_phrase (py_lower (log_message log)) = true /\
  normalize_title unidecode
    (JStr (py_strip (split_first moved_phrase (py_lower (log_message log))))) = Ret x /\
  In x expected.

Lemma scan_records_In threshold expected logs moved x :
  In x (scan_records unidecode threshold expected logs moved) <->
  In x moved \/ exists log, In log logs /\ accepted threshold expected log x.
Proof.
  revert moved. induction logs as [|lg logs IH]; intros moved; simpl.
  - split; [tauto|]. intros [H|(l & [] & _)]; exact H.
  - destruct (Z.ltb (log_time lg) threshold) eqn:Et.
    + apply Z.ltb_lt in Et. rewrite IH. split.
      * intros [H|(l & Hl & R)]; [left; exact H | right; exists l; auto].
      * intros [H|(l & [<-|Hl] & R)]; [left; exact H| |right; exists l; auto].
        destruct R as (R & _). lia.
    + apply Z.ltb_ge in Et.
      destruct (py_contains moved_phrase (py_lower (log_message lg))) eqn:Ec.
      * destruct (normalize_title_str
                    (py_strip (split_first moved_phrase (py_lower (log_message lg)))))
          as [t Ht].
        rewrite Ht.
        destruct (str_mem t expected) eqn:Em.
        -- apply str_mem_In in Em. rewrite IH, set_add_In. split.
           ++ intros [[->|H]|(l & Hl & R)].
              ** right. exists lg. split; [left; reflexivity|]. repeat split; assumption.
              ** left. exact H.
              ** right. exists l. auto.
           ++ intros [H|(l & [<-|Hl] & R)].
              ** left. right. exact H.
              ** left. left. destruct R as (_ & _ & R & _). rewrite Ht in R.
                 injection R as ->. reflexivity.
              ** right. exists l. auto.
        -- rewrite IH. split.
           ++ intros [H|(l & Hl & R)]; [left; exact H | right; exists l; auto].
           ++ intros [H|(l & [<-|Hl] & R)]; [left; exact H| |right; exists l; auto].
              destruct R as (_ & _ & R & Hin). rewrite Ht in R. injection R as <-.
              apply str_mem_In in Hin. congruence.
      * rewrite IH. split.
        -- intros [H|(l & Hl & R)]; [left; exact H | right; exists l; auto].
        -- intros [H|(l & [<-|Hl] & R)]; [left; exact H| |right; exists l; auto].
           destruct R as (_ & R & _). congruence.
Qed.

Lemma expected_titles_of_other ts : expected_titles_of unidecode (map ItemOther ts) = Ret [].
Proof. induction ts as [|t ts IH]; [reflexivity | exact IH]. Qed.

(** C2 (as the code does it): a log record counts toward an entry
    exactly when it is not older than the threshold (12 hours before
    the scan), its lowercased message contains ["moved successfully
    to"], and the text before that phrase normalises to a string EQUAL
    to the entry's normalised title: no fuzzy comparison takes place.
    Called, as [update_movie_path] calls it, with the titles as
    strings, the verifier finds no expected title and answers [false]. *)
Theorem C2_scan_exact_match :
  (forall threshold expected logs moved x,
     In x (scan_records unidecode threshold expected logs moved) <->
     In x moved \/
     exists log, In log logs /\
       (threshold <= log_time log)%Z /\
       py_contains moved_phrase (py_lower (log_message log)) = true /\
       normalize_title unidecode
         (JStr (py_strip (split_first moved_phrase (py_lower (log_message log))))) = Ret x /\
       In x expected) /\
  (forall env, log_time_threshold (radarr_now env) = (radarr_now env - 43200)%Z) /\
  (forall env titles, wait_for_movie_moves unidecode env (map ItemOther titles) = Ret false).
Proof.
  split; [exact scan_records_In|]. split.
  - intros env. unfold log_time_threshold. lia.
  - intros env titles. unfold wait_for_movie_moves.
    destruct titles as [|t ts]; [reflexivity|].
    change (map ItemOther (t :: ts)) with (ItemOther t :: map ItemOther ts).
    cbn [expected_titles_of]. rewrite expected_titles_of_other. reflexivity.
Qed.

End ClaimsVerifier.

(** A Radarr whose log holds one recent record, for a film whose
    title in the log lacks its leading article. *)
Definition lotr_details : obj :=
  list_to_map [("id", JInt 3); ("title", JStr "The Lord of the Rings"); ("year", JInt 2001)].

Definition lotr_record : log_record :=
  {| log_time := 1000; log_message := "Lord of the Rings moved successfully to /data/movies/x" |}.

Definition lotr_env : radarr_env := {|
  radarr_folder_format := Some scenario_format;
  radarr_movies := [];
  radarr_root_folders := scenario_roots;
  radarr_movie_details := fun _ => None;
  radarr_put_ok := fun _ => true;
  radarr_movie_files := fun _ _ => true;
  radarr_log_page := fun _ page => if Nat.eqb page 1 then Some [lotr_record] else Some [];
  radarr_now := 1000
|}.

(** C2 fails as stated: the normalised titles ["thelordoftherings"] and
    ["lordoftherings"] have a similarity of 28/31 (above 85%), the
    record is recent, and yet the verifier does not detect the move. *)
Lemma C2_fuzzy_match_not_detected :
  normalize_title ascii_unidecode (JStr "The Lord of the Rings") = Ret "thelordoftherings" /\
  normalize_title ascii_unidecode
    (JStr (py_strip (split_first moved_phrase (py_lower (log_message lotr_record)))))
  = Ret "lordoftherings" /\
  lcs "thelordoftherings" "lordoftherings" = 14%nat /\
  spec_fuzzy_match "thelordoftherings" "lordoftherings" 85 = true /\
  (log_time_threshold (radarr_now lotr_env) <= log_time lotr_record)%Z /\
  wait_for_movie_moves ascii_unidecode lotr_env [ItemDict lotr_details] = Ret false.
Proof. vm_compute. repeat split; try reflexivity; discriminate. Qed.

Lemma C2_witness :
  (In "lordoftherings"
     (scan_records ascii_unidecode 0 ["lordoftherings"] [lotr_record] []) <->
   In "lordoftherings" [] \/
   exists log, In log [lotr_record] /\
     (0 <= log_time log)%Z /\
     py_contains moved_phrase (py_lower (log_message log)) = true /\
     normalize_title ascii_unidecode
       (JStr (py_strip (split_first moved_phrase (py_lower (log_message log)))))
     = Ret "lordoftherings" /\
     In "lordoftherings" ["lordoftherings"]) /\
  In "lordoftherings" (scan_records ascii_unidecode 0 ["lordoftherings"] [lotr_record] []).
Proof.
  split; [apply (proj1 (C2_scan_exact_match ascii_unidecode))|].
  vm_compute. left. reflexivity.
Defined.

(* ================================================================= *)
(** ** Templates as literal text and tokens *)


Definition tok_text (name : string) : string := "{" ++ name ++ "}".



Fixpoint brace_free (s : string) : bool :=
  match s with
  | EmptyString => true
  | String c s' => negb (is_brace c) && brace_free s'
  end.





Lemma str_app_cons c s t : String c s ++ t = String c (s ++ t).
Proof. reflexivity. Qed.

Lemma str_app_nil t : "" ++ t = t.
Proof. reflexivity. Qed.

Lemma str_app_assoc (a b c : string) : (a ++ b) ++ c = a ++ b ++ c.
Proof. induction a as [|x a IH]; [reflexivity | exact (f_equal (String x) IH)]. Qed.





(* ----------------------------------------------------------------- *)
(** *** [re.findall] on a rendered template *)







(* ----------------------------------------------------------------- *)
(** *** [str.replace] of a token in a rendered template *)












(* ----------------------------------------------------------------- *)
(** *** The substitution loop over the resolved tokens *)








(* ----------------------------------------------------------------- *)
(** *** The token values of [extract_token_values] *)

Lemma dict_set_In {V} k v (d : list (string * V)) k' v' :
  In (k', v') (dict_set k v d) -> (k', v') = (k, v) \/ In (k', v') d.
Proof.
  induction d as [|[k0 v0] d IH]; cbn [dict_set]; [intros [H|[]]; left; congruence|].
  destruct (String.eqb k k0) eqn:E.
  - apply String.eqb_eq in E as <-. intros [H|H]; [left; congruence | right; right; exact H].
  - intros [H|H]; [right; left; exact H|]. destruct (IH H) as [H'|H']; [left | right; right]; assumption.
Qed.

Lemma dict_set_keys {V} k v (d : list (string * V)) k' :
  In k' (map fst d) \/ k' = k -> In k' (map fst (dict_set k v d)).
Proof.
  induction d as [|[k0 v0] d IH]; cbn [dict_set map fst].
  - intros [H| ->]; [destruct H | left; reflexivity].
  - destruct (String.eqb k k0) eqn:E.
    + apply String.eqb_eq in E as <-. intros [[H|H]|H]; cbn; auto.
    + intros [[H|H]|H]; cbn; auto.
Qed.

Lemma extract_acc_spec movie toks acc tv :
  extract_token_values_acc movie toks acc = Ret tv ->
  (forall k v, In (k, v) tv -> In (k, v) acc \/ (In k toks /\ movie_token_value movie k = Ret v)) /\
  (forall k, In k toks \/ In k (map fst acc) -> In k (map fst tv)).
Proof.
  revert acc. induction toks as [|t toks IH]; intros acc H.
  - injection H as <-. split; [auto|]. intros k [[]|Hk]; exact Hk.
  - cbn [extract_token_values_acc] in H.
    destruct (movie_token_value movie t) as [v0|e] eqn:Ev; [|discriminate].
    cbn [bind_out] in H. destruct (IH _ H) as [H1 H2]. split.
    + intros k v Hin. destruct (H1 k v Hin) as [Ha|[Ht Hm]].
      * apply dict_set_In in Ha as [Ha|Ha]; [|left; exact Ha].
        injection Ha as -> ->. right. split; [left; reflexivity | exact Ev].
      * right. split; [right; exact Ht | exact Hm].
    + intros k [[<-|Hk]|Hk]; apply H2.
      * right. apply dict_set_keys. right. reflexivity.
      * left. exact Hk.
      * right. apply dict_set_keys. left. exact Hk.
Qed.











(* ================================================================= *)
(** ** Further properties of the renamer *)


Section RunInvariants.

Variable DRY_RUN : bool.
Variable WORK_LIMIT : Z.
Variable unidecode : string -> string.

Lemma radarr_step_shape env fmt tokens movies m st st' r :
  radarr_step DRY_RUN unidecode env fmt tokens movies m st = (st', r) ->
  st' = st \/
  exists id, cache st !! id = None /\
   ((exists x, st' = set_cache st id (rstrip_slash x)) \/
    exists np root evs res,
      update_movie_path DRY_RUN unidecode env id np root movies = (evs, res) /\
      ((st' = add_processed (set_cache (add_events st evs) id (rstrip_slash np)) m
        /\ res = Ret true) \/
       (st' = set_cache (add_events st evs) id (rstrip_slash np) /\ res = Ret false) \/
       (st' = add_events st evs /\ exists e, res = Raise e /\ r = Raise e))).
Proof.
  unfold radarr_step. intros H.
  destruct (py_getitem m "id") as [idv|e]; [|injection H as <- _; left; reflexivity].
  case_bool_decide as Hc; [injection H as <- _; left; reflexivity|].
  apply eq_None_not_Some in Hc.
  destruct (extract_token_values m tokens) as [tv|e]; [|injection H as <- _; left; reflexivity].
  destruct (bind_out (py_getitem m "rootFolderPath") as_str) as [root|e];
    [|injection H as <- _; left; reflexivity].
  rewrite Hc in H.
  destruct (as_str (py_get m "path" (JStr ""))) as [p|e]; [|injection H as <- _; left; reflexivity].
  right. exists (py_str idv). split; [exact Hc|].
  destruct (String.eqb _ _).
  - injection H as <- _. left. eexists. reflexivity.
  - right. destruct (update_movie_path _ _ _ _ _ _ _) as [evs res] eqn:Hu.
    do 4 eexists. split; [exact Hu|].
    destruct res as [[|]|e]; injection H as <- <-.
    + left. split; reflexivity.
    + right. left. split; reflexivity.
    + right. right. split; [reflexivity|]. exists e. split; reflexivity.
Qed.

Lemma sonarr_step_shape env tokens s sid st st' r :
  sonarr_step DRY_RUN env tokens s sid st = (st', r) ->
  st' = st \/
  (cache st !! sid = None /\
   (st' = add_events st [SeriesRootFolderInvalid sid] \/
    (exists x, st' = set_cache st sid (rstrip_slash x)) \/
    exists np root evs res,
      update_series_path DRY_RUN env sid np root = (evs, res) /\
      ((st' = add_events st evs /\ exists e, res = Raise e /\ r = Raise e) \/
       (res = Ret true
        /\ st' = add_processed (set_cache (add_events st evs) sid (rstrip_slash np)) s) \/
       (exists b, res = Ret b
        /\ st' = set_cache (add_events st evs) sid (rstrip_slash np))))).
Proof.
  unfold sonarr_step. intros H.
  case_bool_decide as Hc; [injection H as <- _; left; reflexivity|].
  apply eq_None_not_Some in Hc.
  destruct (extract_series_token_values s tokens) as [tv|e];
    [|injection H as <- _; left; reflexivity].
  destruct (as_str (py_get s "rootFolderPath" (JStr "/media/Series"))) as [rt|e];
    [|injection H as <- _; left; reflexivity].
  destruct (sonarr_root_known _ _) as [[|]|e]; [| |injection H as <- _; left; reflexivity].
  2:{ injection H as <- _. right. split; [exact Hc|]. left. reflexivity. }
  destruct (sonarr_folder_format env) as [f|]; [|injection H as <- _; left; reflexivity].
  destruct (as_str (py_get s "path" (JStr ""))) as [p|e]; [|injection H as <- _; left; reflexivity].
  right. split; [exact Hc|]. right.
  destruct (String.eqb _ _).
  - injection H as <- _. left. eexists. reflexivity.
  - right. destruct (update_series_path _ _ _ _ _) as [evs res] eqn:Hu.
    do 4 eexists. split; [exact Hu|].
    destruct res as [b|e].
    + destruct (b && _) eqn:Eb; injection H as <- <-.
      * apply andb_true_iff in Eb as [-> _]. right. left. split; reflexivity.
      * right. right. exists b. split; reflexivity.
    + injection H as <- <-. left. split; [reflexivity|]. exists e. split; reflexivity.
Qed.

(** Induction principle of [radarr_loop]: [P] is kept by every
    iteration that goes on, and [Q] holds after an iteration that
    raises or when the loop stops. *)
Lemma radarr_loop_ind (P Q : run_state -> Prop) env fmt tokens movies :
  (forall st, P st -> Q st) ->
  (forall m st st' u, P st ->
     radarr_step DRY_RUN unidecode env fmt tokens movies m st = (st', Ret u) -> P st') ->
  (forall m st st' e, P st ->
     radarr_step DRY_RUN unidecode env fmt tokens movies m st = (st', Raise e) -> Q st') ->
  forall ms st, P st ->
  Q (fst (radarr_loop DRY_RUN WORK_LIMIT unidecode env fmt tokens movies ms st)).
Proof.
  intros HPQ HR HE ms. induction ms as [|m ms IH]; intros st Hst; simpl; [auto|].
  destruct (cap_reached WORK_LIMIT (count st)); [simpl; auto|].
  destruct (radarr_step _ _ _ _ _ _ _ _) as [st' [u|e]] eqn:Hs.
  - apply IH. eapply HR; eassumption.
  - simpl. eapply HE; eassumption.
Qed.

Lemma sonarr_loop_ind (P Q : run_state -> Prop) env tokens :
  (forall st, P st -> Q st) ->
  (forall s sid st st' u, P st ->
     sonarr_step DRY_RUN env tokens s sid st = (st', Ret u) -> P st') ->
  (forall s sid st st' e, P st ->
     sonarr_step DRY_RUN env tokens s sid st = (st', Raise e) -> Q st') ->
  forall ss st, P st -> Q (fst (sonarr_loop DRY_RUN WORK_LIMIT env tokens ss st)).
Proof.
  intros HPQ HR HE ss. induction ss as [|s ss IH]; intros st Hst; simpl; [auto|].
  destruct (py_getitem s "id") as [idv|e]; [|simpl; auto].
  destruct (cap_reached WORK_LIMIT (count st)); [simpl; auto|].
  destruct (sonarr_step _ _ _ _ _ _) as [st' [u|e]] eqn:Hs.
  - apply IH. eapply HR; eassumption.
  - simpl. eapply HE; eassumption.
Qed.

Definition init_state (c : gmap string string) : run_state :=
  {| cache := c; processed := []; count := 0; trace := [] |}.

Lemma process_radarr_ind (P Q : run_state -> Prop) env c :
  (forall st, P st -> Q st) ->
  (forall fmt tokens m st st' u, P st ->
     radarr_step DRY_RUN unidecode env fmt tokens (radarr_movies env) m st = (st', Ret u) -> P st') ->
  (forall fmt tokens m st st' e, P st ->
     radarr_step DRY_RUN unidecode env fmt tokens (radarr_movies env) m st = (st', Raise e) -> Q st') ->
  P (init_state c) -> Q (fst (process_radarr DRY_RUN WORK_LIMIT unidecode env c)).
Proof.
  intros HPQ HR HE H0. unfold process_radarr.
  destruct (radarr_folder_format env) as [fmt|]; [|apply HPQ; exact H0].
  destruct (get_folder_name_tokens fmt); [apply HPQ; exact H0|].
  apply radarr_loop_ind with (P := P); eauto.
Qed.

Lemma process_sonarr_ind (P Q : run_state -> Prop) env c :
  (forall st, P st -> Q st) ->
  (forall tokens s sid st st' u, P st ->
     sonarr_step DRY_RUN env tokens s sid st = (st', Ret u) -> P st') ->
  (forall tokens s sid st st' e, P st ->
     sonarr_step DRY_RUN env tokens s sid st = (st', Raise e) -> Q st') ->
  P (init_state c) -> Q (fst (process_sonarr DRY_RUN WORK_LIMIT env c)).
Proof.
  intros HPQ HR HE H0. unfold process_sonarr.
  apply sonarr_loop_ind with (P := P); eauto.
Qed.

End RunInvariants.


(** The ids of the update requests in a list of events. *)
Fixpoint put_ids (evs : list event) : list string :=
  match evs with
  | [] => []
  | MoviePut i _ :: evs' | SeriesPut i _ :: evs' => i :: put_ids evs'
  | _ :: evs' => put_ids evs'
  end.

Section RunFacts.
Local Open Scope list_scope.

Variable DRY_RUN : bool.
Variable WORK_LIMIT : Z.
Variable unidecode : string -> string.

Lemma put_ids_app a b : put_ids (a ++ b) = put_ids a ++ put_ids b.
Proof. induction a as [|[] a IH]; simpl; rewrite ?IH; reflexivity. Qed.

Lemma put_ids_nil evs : (forall e, In e evs -> is_update e = false) -> put_ids evs = [].
Proof.
  induction evs as [|e evs IH]; intros H; [reflexivity|].
  assert (He := H e (or_introl eq_refl)).
  destruct e; simpl in He; try discriminate; apply IH; intros e' Hi; apply H; right; exact Hi.
Qed.

Lemma update_movie_path_puts env id np root movies :
  put_ids (fst (update_movie_path DRY_RUN unidecode env id np root movies)) = [] \/
  put_ids (fst (update_movie_path DRY_RUN unidecode env id np root movies)) = [id].
Proof.
  unfold update_movie_path. repeat case_match; simpl; auto.
  right. f_equal. apply put_ids_nil. intros e He.
  apply (verify_loop_no_update unidecode env id movies 0 max_attempts e).
  match goal with H : verify_loop _ _ _ _ _ _ = _ |- _ => rewrite H end. exact He.
Qed.

Lemma update_series_path_puts env id np root :
  put_ids (fst (update_series_path DRY_RUN env id np root)) = [] \/
  put_ids (fst (update_series_path DRY_RUN env id np root)) = [id].
Proof. unfold update_series_path. repeat case_match; simpl; auto. Qed.

Lemma update_movie_path_dry env id np root movies e :
  In e (fst (update_movie_path true unidecode env id np root movies)) ->
  e = MovieRootFolderMissing id.
Proof.
  unfold update_movie_path. repeat case_match; simpl; try contradiction.
  intros [<-|[]]. reflexivity.
Qed.

Lemma update_series_path_dry env id np root :
  fst (update_series_path true env id np root) = [].
Proof. unfold update_series_path. repeat case_match; reflexivity. Qed.

(** How one iteration changes the cache: not at all, or by a key that
    was absent, bound to a path with no trailing slash. *)
Definition cache_step (c c' : gmap string string) : Prop :=
  c' = c \/ exists id x, c !! id = None /\ c' = <[id := x]> c /\ rstrip_slash x = x.

Lemma radarr_step_cache env fmt tokens movies m st st' r :
  radarr_step DRY_RUN unidecode env fmt tokens movies m st = (st', r) ->
  cache_step (cache st) (cache st').
Proof.
  intros H. apply radarr_step_shape in H.
  destruct H as [->|(id & Hc & [[x ->]|(np & root & evs & res & _ & H)])];
    [left; reflexivity | | ].
  - right. exists id, (rstrip_slash x). split; [exact Hc|]. split; [reflexivity|].
    apply rstrip_slash_idem.
  - destruct H as [[-> _]|[[-> _]|[-> _]]]; [right..|left; reflexivity];
      exists id, (rstrip_slash np); (split; [exact Hc|]); (split; [reflexivity|]);
      apply rstrip_slash_idem.
Qed.

Lemma sonarr_step_cache env tokens s sid st st' r :
  sonarr_step DRY_RUN env tokens s sid st = (st', r) ->
  cache_step (cache st) (cache st').
Proof.
  intros H. apply sonarr_step_shape in H.
  destruct H as [->|(Hc & [->|[[x ->]|(np & root & evs & res & _ & H)]])];
    [left; reflexivity | left; reflexivity | | ].
  - right. exists sid, (rstrip_slash x). split; [exact Hc|]. split; [reflexivity|].
    apply rstrip_slash_idem.
  - destruct H as [[-> _]|[[_ ->]|(b & _ & ->)]]; [left; reflexivity|right..];
      exists sid, (rstrip_slash np); (split; [exact Hc|]); (split; [reflexivity|]);
      apply rstrip_slash_idem.
Qed.

Lemma cache_step_mono c c' k v : cache_step c c' -> c !! k = Some v -> c' !! k = Some v.
Proof.
  intros [->|(id & x & Hid & -> & _)] Hk; [exact Hk|].
  rewrite lookup_insert_ne; [exact Hk|]. intros ->. congruence.
Qed.

(** How one iteration changes the update requests of the trace. *)
Definition puts_step (c c' : gmap string string) (l l' : list string) (r : outcome unit) : Prop :=
  l' = l \/ exists id, c !! id = None /\ l' = l ++ [id] /\
                       (forall u, r = Ret u -> is_Some (c' !! id)).

Lemma radarr_step_puts env fmt tokens movies m st st' r :
  radarr_step DRY_RUN unidecode env fmt tokens movies m st = (st', r) ->
  puts_step (cache st) (cache st') (put_ids (trace st)) (put_ids (trace st')) r.
Proof.
  intros H. apply radarr_step_shape in H.
  destruct H as [->|(id & Hc & [[x ->]|(np & root & evs & res & Hu & H)])];
    [left; reflexivity | left; reflexivity | ].
  assert (Hp := update_movie_path_puts env id np root movies). rewrite Hu in Hp. simpl in Hp.
  destruct H as [[-> _]|[[-> _]|[-> (e & _ & ->)]]]; simpl; rewrite put_ids_app;
    (destruct Hp as [-> | ->]; [left; apply app_nil_r|right; exists id; split; [exact Hc|]]);
    (split; [reflexivity|]); intros u Hr; try discriminate;
    simpl; rewrite lookup_insert_eq; eexists; reflexivity.
Qed.

Lemma sonarr_step_puts env tokens s sid st st' r :
  sonarr_step DRY_RUN env tokens s sid st = (st', r) ->
  puts_step (cache st) (cache st') (put_ids (trace st)) (put_ids (trace st')) r.
Proof.
  intros H. apply sonarr_step_shape in H.
  destruct H as [->|(Hc & [->|[[x ->]|(np & root & evs & res & Hu & H)]])];
    [left; reflexivity | left; simpl; rewrite put_ids_app, app_nil_r; reflexivity
    | left; reflexivity | ].
  assert (Hp := update_series_path_puts env sid np root). rewrite Hu in Hp. simpl in Hp.
  destruct H as [[-> (e & _ & ->)]|[[_ ->]|(b & _ & ->)]]; simpl; rewrite put_ids_app;
    (destruct Hp as [-> | ->]; [left; apply app_nil_r|right; exists sid; split; [exact Hc|]]);
    (split; [reflexivity|]); intros u Hr; try discriminate;
    simpl; rewrite lookup_insert_eq; eexists; reflexivity.
Qed.

End RunFacts.


Section RunTheorems.
Local Open Scope list_scope.

Definition puts_inv (c : gmap string string) (st : run_state) : Prop :=
  (forall k v, c !! k = Some v -> cache st !! k = Some v) /\
  NoDup (put_ids (trace st)) /\
  (forall i, In i (put_ids (trace st)) -> c !! i = None /\ is_Some (cache st !! i)).

Definition puts_final (c : gmap string string) (st : run_state) : Prop :=
  NoDup (put_ids (trace st)) /\ (forall i, In i (put_ids (trace st)) -> c !! i = None).

Lemma puts_inv_final c st : puts_inv c st -> puts_final c st.
Proof. intros (_ & Hn & Hi). split; [exact Hn|]. intros i H. apply (Hi i H). Qed.

Lemma puts_inv_step c st st' r :
  puts_inv c st ->
  cache_step (cache st) (cache st') ->
  puts_step (cache st) (cache st') (put_ids (trace st)) (put_ids (trace st')) r ->
  puts_final c st' /\ (forall u, r = Ret u -> puts_inv c st').
Proof.
  intros (Hm & Hn & Hi) Hcs Hps.
  assert (Hm' : forall k v, c !! k = Some v -> cache st' !! k = Some v).
  { intros k v Hk. exact (cache_step_mono _ _ k v Hcs (Hm k v Hk)). }
  unfold puts_final, puts_inv.
  destruct Hps as [Heq|(id & Hid & Heq & Hr)]; rewrite Heq.
  - assert (Hi' : forall i, In i (put_ids (trace st)) ->
                  c !! i = None /\ is_Some (cache st' !! i)).
    { intros i H. destruct (Hi i H) as [Hc [v Hv]]. split; [exact Hc|].
      exists v. exact (cache_step_mono _ _ i v Hcs Hv). }
    split; [split; [exact Hn|intros i H; apply (Hi' i H)]|].
    intros u _. split; [exact Hm'|split; [exact Hn|exact Hi']].
  - assert (Hnot : ~ In id (put_ids (trace st))).
    { intros H. destruct (Hi id H) as [_ [v Hv]]. congruence. }
    assert (Hcid : c !! id = None).
    { destruct (c !! id) as [v|] eqn:E; [|reflexivity]. rewrite (Hm id v E) in Hid. discriminate. }
    assert (Hn' : NoDup (put_ids (trace st) ++ [id])).
    { apply NoDup_app. split; [exact Hn|]. split; [|apply NoDup_singleton].
      intros x Hx ->%list_elem_of_singleton. apply Hnot. apply list_elem_of_In. exact Hx. }
    split.
    + split; [exact Hn'|]. intros i H. apply in_app_or in H as [H|[<-|[]]]; [apply (Hi i H)|exact Hcid].
    + intros u Hu. split; [exact Hm'|]. split; [exact Hn'|].
      intros i H. apply in_app_or in H as [H|[<-|[]]].
      * destruct (Hi i H) as [Hc [v Hv]]. split; [exact Hc|].
        exists v. exact (cache_step_mono _ _ i v Hcs Hv).
      * split; [exact Hcid|]. exact (Hr u Hu).
Qed.

Lemma puts_inv_init c : puts_inv c (init_state c).
Proof.
  split; [intros k v H; exact H|]. split; [constructor|]. intros i [].
Qed.

(** Each entry is sent at most one update request per run, and none
    when its id was a key of the cache given to the run. *)
Theorem process_one_update_per_entry DRY_RUN WORK_LIMIT unidecode renv rc senv sc :
  (NoDup (put_ids (trace (fst (process_radarr DRY_RUN WORK_LIMIT unidecode renv rc)))) /\
   forall i, In i (put_ids (trace (fst (process_radarr DRY_RUN WORK_LIMIT unidecode renv rc)))) ->
             rc !! i = None) /\
  (NoDup (put_ids (trace (fst (process_sonarr DRY_RUN WORK_LIMIT senv sc)))) /\
   forall i, In i (put_ids (trace (fst (process_sonarr DRY_RUN WORK_LIMIT senv sc)))) ->
             sc !! i = None).
Proof.
  split.
  - apply (process_radarr_ind DRY_RUN WORK_LIMIT unidecode (puts_inv rc) (puts_final rc)).
    + apply puts_inv_final.
    + intros fmt tokens m st st' u Hi Hs.
      exact (proj2 (puts_inv_step rc st st' _ Hi (radarr_step_cache _ _ _ _ _ _ _ _ _ _ Hs)
                      (radarr_step_puts _ _ _ _ _ _ _ _ _ _ Hs)) u eq_refl).
    + intros fmt tokens m st st' e Hi Hs.
      exact (proj1 (puts_inv_step rc st st' _ Hi (radarr_step_cache _ _ _ _ _ _ _ _ _ _ Hs)
                      (radarr_step_puts _ _ _ _ _ _ _ _ _ _ Hs))).
    + apply puts_inv_init.
  - apply (process_sonarr_ind DRY_RUN WORK_LIMIT (puts_inv sc) (puts_final sc)).
    + apply puts_inv_final.
    + intros tokens s sid st st' u Hi Hs.
      exact (proj2 (puts_inv_step sc st st' _ Hi (sonarr_step_cache _ _ _ _ _ _ _ _ Hs)
                      (sonarr_step_puts _ _ _ _ _ _ _ _ Hs)) u eq_refl).
    + intros tokens s sid st st' e Hi Hs.
      exact (proj1 (puts_inv_step sc st st' _ Hi (sonarr_step_cache _ _ _ _ _ _ _ _ Hs)
                      (sonarr_step_puts _ _ _ _ _ _ _ _ Hs))).
    + apply puts_inv_init.
Qed.

Definition cache_inv (c c' : gmap string string) : Prop :=
  (forall k v, c !! k = Some v -> c' !! k = Some v) /\
  (forall k v, c' !! k = Some v -> c !! k = Some v \/ rstrip_slash v = v).

Lemma cache_inv_step c c1 c2 : cache_inv c c1 -> cache_step c1 c2 -> cache_inv c c2.
Proof.
  intros [Hm Hn] Hcs. split.
  - intros k v Hk. exact (cache_step_mono _ _ k v Hcs (Hm k v Hk)).
  - destruct Hcs as [->|(id & x & Hid & -> & Hx)]; [exact Hn|].
    intros k v Hk. destruct (decide (k = id)) as [->|Hne].
    + rewrite lookup_insert_eq in Hk. injection Hk as <-. right. exact Hx.
    + rewrite lookup_insert_ne in Hk by congruence. exact (Hn k v Hk).
Qed.

(** A run only adds entries to the cache: every entry of the given
    cache is still there with the same path, and every other entry of
    the saved cache holds a path with no trailing slash. *)
Theorem process_cache_extends DRY_RUN WORK_LIMIT unidecode renv rc senv sc :
  cache_inv rc (cache (fst (process_radarr DRY_RUN WORK_LIMIT unidecode renv rc))) /\
  cache_inv sc (cache (fst (process_sonarr DRY_RUN WORK_LIMIT senv sc))).
Proof.
  split.
  - apply (process_radarr_ind DRY_RUN WORK_LIMIT unidecode
             (fun st => cache_inv rc (cache st)) (fun st => cache_inv rc (cache st))).
    + tauto.
    + intros fmt tokens m st st' u Hi Hs. exact (cache_inv_step _ _ _ Hi (radarr_step_cache _ _ _ _ _ _ _ _ _ _ Hs)).
    + intros fmt tokens m st st' e Hi Hs. exact (cache_inv_step _ _ _ Hi (radarr_step_cache _ _ _ _ _ _ _ _ _ _ Hs)).
    + split; [intros k v H; exact H|]. intros k v H. left. exact H.
  - apply (process_sonarr_ind DRY_RUN WORK_LIMIT
             (fun st => cache_inv sc (cache st)) (fun st => cache_inv sc (cache st))).
    + tauto.
    + intros tokens s sid st st' u Hi Hs. exact (cache_inv_step _ _ _ Hi (sonarr_step_cache _ _ _ _ _ _ _ _ Hs)).
    + intros tokens s sid st st' e Hi Hs. exact (cache_inv_step _ _ _ Hi (sonarr_step_cache _ _ _ _ _ _ _ _ Hs)).
    + split; [intros k v H; exact H|]. intros k v H. left. exact H.
Qed.

Lemma radarr_step_dry unidecode env fmt tokens movies m st st' r :
  (forall e, In e (trace st) -> exists id, e = MovieRootFolderMissing id) ->
  radarr_step true unidecode env fmt tokens movies m st = (st', r) ->
  forall e, In e (trace st') -> exists id, e = MovieRootFolderMissing id.
Proof.
  intros Hi H. apply radarr_step_shape in H.
  destruct H as [->|(id & _ & [[x ->]|(np & root & evs & res & Hu & H)])]; [exact Hi|exact Hi|].
  assert (Hd : forall e, In e evs -> e = MovieRootFolderMissing id).
  { intros e He. apply (update_movie_path_dry unidecode env id np root movies). rewrite Hu. exact He. }
  destruct H as [[-> _]|[[-> _]|[-> _]]]; simpl; intros e He; apply in_app_or in He as [He|He];
    eauto.
Qed.

Lemma sonarr_step_dry env tokens s sid st st' r :
  (forall e, In e (trace st) -> exists id, e = SeriesRootFolderInvalid id) ->
  sonarr_step true env tokens s sid st = (st', r) ->
  forall e, In e (trace st') -> exists id, e = SeriesRootFolderInvalid id.
Proof.
  intros Hi H. apply sonarr_step_shape in H.
  destruct H as [->|(_ & [->|[[x ->]|(np & root & evs & res & Hu & H)]])]; [exact Hi| |exact Hi|].
  - simpl. intros e He. apply in_app_or in He as [He|[<-|[]]]; eauto.
  - assert (Hd := update_series_path_dry env sid np root). rewrite Hu in Hd. simpl in Hd. subst evs.
    destruct H as [[-> _]|[[_ ->]|(b & _ & ->)]]; simpl; rewrite app_nil_r; exact Hi.
Qed.

(** A dry run sends no update and no rescan request: the only events
    of its trace are the root-folder errors it reports. *)
Theorem process_dry_run_read_only WORK_LIMIT unidecode renv rc senv sc :
  (forall e, In e (trace (fst (process_radarr true WORK_LIMIT unidecode renv rc))) ->
             exists id, e = MovieRootFolderMissing id) /\
  (forall e, In e (trace (fst (process_sonarr true WORK_LIMIT senv sc))) ->
             exists id, e = SeriesRootFolderInvalid id).
Proof.
  split.
  - apply (process_radarr_ind true WORK_LIMIT unidecode
      (fun st => forall e, In e (trace st) -> exists id, e = MovieRootFolderMissing id)
      (fun st => forall e, In e (trace st) -> exists id, e = MovieRootFolderMissing id)).
    + tauto.
    + intros fmt tokens m st st' u Hi Hs. exact (radarr_step_dry _ _ _ _ _ _ _ _ _ Hi Hs).
    + intros fmt tokens m st st' e Hi Hs. exact (radarr_step_dry _ _ _ _ _ _ _ _ _ Hi Hs).
    + intros e [].
  - apply (process_sonarr_ind true WORK_LIMIT
      (fun st => forall e, In e (trace st) -> exists id, e = SeriesRootFolderInvalid id)
      (fun st => forall e, In e (trace st) -> exists id, e = SeriesRootFolderInvalid id)).
    + tauto.
    + intros tokens s sid st st' u Hi Hs. exact (sonarr_step_dry _ _ _ _ _ _ _ Hi Hs).
    + intros tokens s sid st st' e Hi Hs. exact (sonarr_step_dry _ _ _ _ _ _ _ Hi Hs).
    + intros e [].
Qed.

End RunTheorems.


Section UpdateFacts.

Variable unidecode : string -> string.

(** In a dry run, [update_movie_path] and [update_series_path] report
    success exactly for the entries a real run would send an update
    request for; they then record nothing. *)
Theorem update_dry_run_mirrors_put :
  (forall env id np root movies,
     (exists p, In (MoviePut id p) (fst (update_movie_path false unidecode env id np root movies)))
     <-> update_movie_path true unidecode env id np root movies = ([], Ret true)) /\
  (forall env id np root,
     (exists p, In (SeriesPut id p) (fst (update_series_path false env id np root)))
     <-> update_series_path true env id np root = ([], Ret true)).
Proof.
  split.
  - intros env id np root movies. unfold update_movie_path.
    repeat case_match; simpl; (split; [intros (p & Hp) | intros Hx]);
      first [ reflexivity | discriminate | (eexists; left; reflexivity)
            | (repeat (destruct Hp as [Hp|Hp]; [discriminate|]); contradiction) ].
  - intros env id np root. unfold update_series_path.
    repeat case_match; simpl; (split; [intros (p & Hp) | intros Hx]);
      first [ reflexivity | discriminate | (eexists; left; reflexivity)
            | (repeat (destruct Hp as [Hp|Hp]; [discriminate|]); contradiction) ].
Qed.

(** An update request for a film is sent only outside a dry run, for
    the film being updated, when its root folder is one of Radarr's,
    when its freshly fetched record is non-empty with a path other than
    the new one, and when its quality profile passes the check. *)
Theorem update_movie_path_put_guard DRY_RUN env id np root movies i p :
  In (MoviePut i p) (fst (update_movie_path DRY_RUN unidecode env id np root movies)) ->
  DRY_RUN = false /\ i = id /\
  root_folder_known (radarr_root_folders env) root = Ret true /\
  exists d p1, radarr_movie_details env id = Some d /\ d <> ∅ /\
    as_str (py_get d "path" (JStr "")) = Ret p1 /\ rstrip_slash p1 <> rstrip_slash np /\
    check_quality_profile (py_get d "qualityProfileId" (JInt 0)) = Ret tt.
Proof.
  unfold update_movie_path.
  destruct (radarr_movie_details env id) as [d|] eqn:Hd; [|intros []].
  destruct (as_str (py_get d "path" (JStr ""))) as [p0|e] eqn:Hp0; [|intros []].
  destruct (String.eqb _ _) eqn:E0; [intros []|].
  destruct (root_folder_known _ _) as [[|]|e] eqn:Hr; [|intros [H|[]]; discriminate|intros []].
  destruct (bool_decide (d = ∅)) eqn:Hemp; [intros []|].
  apply bool_decide_eq_false_1 in Hemp.
  destruct (check_quality_profile _) as [[]|e] eqn:Hq; [|intros []].
  destruct (build_movie_payload d np) as [pl|e]; [|intros []].
  destruct DRY_RUN; [intros []|].
  assert (Hne : rstrip_slash p0 <> rstrip_slash np) by (apply String.eqb_neq; exact E0).
  destruct (negb (radarr_put_ok env id)).
  - intros [H|[]]. injection H as -> ->. repeat split; try reflexivity.
    exists d, p0. repeat split; assumption.
  - destruct (verify_loop _ _ _ _ _ _) as [evs r] eqn:Hv. intros [H|H].
    + injection H as -> ->. repeat split; try reflexivity. exists d, p0. repeat split; assumption.
    + assert (Hu := verify_loop_no_update unidecode env id movies 0 max_attempts (MoviePut i p)).
      rewrite Hv in Hu. specialize (Hu H). discriminate.
Qed.

(** The file-check loop after an accepted update: when every processed
    film has a title it never raises and records no rescan; it answers
    success exactly when one of the remaining file checks finds the
    file. *)
Lemma verify_loop_titled env id movies attempt fuel :
  (forall m, In m movies -> is_Some (m !! "title")) ->
  verify_loop unidecode env id movies attempt fuel
  = ([], Ret (existsb (radarr_movie_files env id) (seq attempt fuel))).
Proof.
  intros Ht. revert attempt. induction fuel as [|fuel IH]; intros attempt; [reflexivity|].
  simpl. destruct (radarr_movie_files env id attempt) eqn:Ef; [|apply IH].
  assert (Hs : is_Some (mapM (fun m => match py_getitem m "title" with
                                       | Ret t => Some t | Raise _ => None end) movies)).
  { apply mapM_is_Some_2. apply Forall_forall. intros m Hm%list_elem_of_In.
    destruct (Ht m Hm) as [t Hmt]. simpl. unfold py_getitem. rewrite Hmt. eexists; reflexivity. }
  destruct Hs as [ts Hts]. rewrite Hts.
  unfold wait_for_movie_moves. destruct ts as [|t ts]; [reflexivity|].
  rewrite (expected_titles_of_other unidecode (t :: ts)). reflexivity.
Qed.

Theorem verify_loop_result env id movies :
  (forall m, In m movies -> is_Some (m !! "title")) ->
  verify_loop unidecode env id movies 0 max_attempts
  = ([], Ret (radarr_movie_files env id 0 || radarr_movie_files env id 1
              || radarr_movie_files env id 2)).
Proof.
  intros Ht. rewrite verify_loop_titled by exact Ht. simpl. rewrite orb_false_r, orb_assoc. reflexivity.
Qed.

End UpdateFacts.

(** An update request for a series is sent only outside a dry run, for
    the series being updated, when its freshly fetched record is
    non-empty with a path other than the new one. *)
Theorem update_series_path_put_guard DRY_RUN env id np root i p :
  In (SeriesPut i p) (fst (update_series_path DRY_RUN env id np root)) ->
  DRY_RUN = false /\ i = id /\
  exists d p1, sonarr_series_details env id = Some d /\ d <> ∅ /\
    as_str (py_get d "path" (JStr "")) = Ret p1 /\ rstrip_slash p1 <> rstrip_slash np.
Proof.
  unfold update_series_path.
  destruct (sonarr_series_details env id) as [d|] eqn:Hd; [|intros []].
  destruct (bool_decide (d = ∅)) eqn:Hemp; [intros []|].
  apply bool_decide_eq_false_1 in Hemp.
  destruct (as_str (py_get d "path" (JStr ""))) as [p0|e] eqn:Hp0; [|intros []].
  destruct (String.eqb _ _) eqn:E0; [intros []|].
  assert (Hne : rstrip_slash p0 <> rstrip_slash np) by (apply String.eqb_neq; exact E0).
  destruct DRY_RUN; [intros []|].
  destruct (sonarr_put env id);
    (intros H; destruct H as [H|H]; [injection H as ? ?; subst|simpl in H; intuition discriminate]);
    repeat split; try reflexivity; exists d, p0; repeat split; assumption.
Qed.



Section VerifierFacts.

Variable unidecode : string -> string.

Lemma superset_In moved expected t :
  superset moved expected = true -> In t expected -> In t moved.
Proof.
  unfold superset. rewrite forallb_forall. intros H Ht.
  apply str_mem_In. exact (H t Ht).
Qed.

(** A title is backed by the log: some record of page [p] fetched at
    retry [r] is accepted for it. *)
Definition move_evidence (env : radarr_env) (threshold : Z) (expected : list string)
    (x : string) : Prop :=
  exists r p logs log, (r < 5)%nat /\ (1 <= p <= 3)%nat /\
    radarr_log_page env r p = Some logs /\ In log logs /\
    accepted unidecode threshold expected log x.

Lemma scan_pages_sound env th expected r fuel : forall page moved,
  (r < 5)%nat -> (1 <= page)%nat -> (page + fuel <= 4)%nat ->
  (forall x, In x moved -> move_evidence env th expected x) ->
  (scan_pages unidecode env th expected r page fuel moved = inl true ->
   forall t, In t expected -> move_evidence env th expected t) /\
  (forall m', scan_pages unidecode env th expected r page fuel moved = inr m' ->
   forall x, In x m' -> move_evidence env th expected x).
Proof.
  induction fuel as [|fuel IH]; intros page moved Hr Hp Hf Hm; simpl.
  - split; [discriminate|]. intros m' [= <-]. exact Hm.
  - destruct (radarr_log_page env r page) as [[|l ls]|] eqn:Hpage.
    + split; [discriminate|]. intros m' [= <-]. exact Hm.
    + set (moved' := scan_records unidecode th expected (l :: ls) moved).
      assert (Hm' : forall x, In x moved' -> move_evidence env th expected x).
      { intros x Hx. apply scan_records_In in Hx as [Hx|(log & Hl & Ha)]; [exact (Hm x Hx)|].
        exists r, page, (l :: ls), log. split; [exact Hr|]. split; [lia|].
        split; [exact Hpage|]. split; [exact Hl|exact Ha]. }
      destruct (superset moved' expected) eqn:Hs.
      * split; [|discriminate]. intros _ t Ht. apply Hm'. exact (superset_In _ _ _ Hs Ht).
      * apply IH; [exact Hr|lia|lia|exact Hm'].
    + split; discriminate.
Qed.

Lemma retry_loop_sound env th expected fuel : forall retries moved,
  (retries + fuel <= 5)%nat ->
  (forall x, In x moved -> move_evidence env th expected x) ->
  retry_loop unidecode env th expected retries fuel moved = true ->
  forall t, In t expected -> move_evidence env th expected t.
Proof.
  induction fuel as [|fuel IH]; intros retries moved Hf Hm; cbn [retry_loop]; [discriminate|].
  destruct (scan_pages_sound env th expected retries max_pages 1 moved) as [H1 H2];
    [lia|lia|unfold max_pages; lia|exact Hm|].
  destruct (scan_pages unidecode env th expected retries 1 max_pages moved) as [b|m'].
  - intros ->. exact (H1 eq_refl).
  - destruct (_ && _); [discriminate|]. apply IH; [lia|exact (H2 m' eq_refl)].
Qed.

(** The move verifier answers [True] only with evidence: every
    expected title has an accepted record (recent, saying "moved
    successfully to", with that normalised title) on one of the first
    three log pages fetched at one of the five retries. *)
Theorem wait_for_movie_moves_sound env items expected :
  expected_titles_of unidecode items = Ret expected ->
  wait_for_movie_moves unidecode env items = Ret true ->
  forall t, In t expected ->
  exists r p logs log, (r < 5)%nat /\ (1 <= p <= 3)%nat /\
    radarr_log_page env r p = Some logs /\ In log logs /\
    accepted unidecode (log_time_threshold (radarr_now env)) expected log t.
Proof.
  intros He Hw. unfold wait_for_movie_moves in Hw.
  destruct items as [|i items]; [discriminate|]. rewrite He in Hw. simpl in Hw.
  destruct expected as [|x xs]; [discriminate|]. injection Hw as Hw.
  exact (retry_loop_sound env _ _ 5 0 [] (le_n _) (fun x H => match H with end) Hw).
Qed.

End VerifierFacts.


(** Every character of [s] satisfies [p]. *)
Fixpoint all_chars (p : ascii -> bool) (s : string) : bool :=
  match s with
  | EmptyString => true
  | String c s' => p c && all_chars p s'
  end.

Definition is_upper (c : ascii) : bool :=
  let n := nat_of_ascii c in (65 <=? n)%nat && (n <=? 90)%nat.

Definition is_lower_alnum (c : ascii) : bool :=
  let n := nat_of_ascii c in is_digit c || ((97 <=? n)%nat && (n <=? 122)%nat).

(** Words of letters and digits separated by single spaces, with no
    space at either end; [at_start] holds at the start of a word. *)
Fixpoint words_ok (at_start : bool) (s : string) : bool :=
  match s with
  | EmptyString => negb at_start
  | String c s' =>
      if Ascii.eqb c " " then negb at_start && words_ok true s'
      else is_alnum c && words_ok false s'
  end.

Fixpoint no_double_space (after_space : bool) (s : string) : bool :=
  match s with
  | EmptyString => true
  | String c s' =>
      if Ascii.eqb c " " then negb after_space && no_double_space true s'
      else is_alnum c && no_double_space false s'
  end.

Definition alnum_or_space (c : ascii) : bool := is_alnum c || Ascii.eqb c " "%char.

Ltac ascii_cases c := destruct c as [[][][][][][][][]]; reflexivity.

Lemma ch_lower_not_upper c : is_upper (ascii_lower c) = false.
Proof. ascii_cases c. Qed.

Lemma ch_lower_id c : is_upper c = false -> ascii_lower c = c.
Proof. unfold ascii_lower. intros H. unfold is_upper in H. rewrite H. reflexivity. Qed.

Lemma ch_lower_upper c : ascii_lower (ascii_upper c) = ascii_lower c.
Proof. ascii_cases c. Qed.

Lemma ch_lower_lower c : ascii_lower (ascii_lower c) = ascii_lower c.
Proof. ascii_cases c. Qed.

Lemma ch_letter_cases c :
  implb (is_letter c)
    (negb (Ascii.eqb (ascii_upper c) " ") && is_alnum (ascii_upper c) &&
     negb (Ascii.eqb (ascii_lower c) " ") && is_alnum (ascii_lower c) &&
     negb (Ascii.eqb c " ")) = true.
Proof. ascii_cases c. Qed.

Lemma ch_alnum_not_space c :
  implb (is_alnum c) (negb (is_space c) && negb (Ascii.eqb c " ")) = true.
Proof. ascii_cases c. Qed.

Lemma ch_alsp_space c : implb (alnum_or_space c) (Bool.eqb (is_space c) (Ascii.eqb c " ")) = true.
Proof. ascii_cases c. Qed.

Lemma ch_lower_alnum c : is_alnum c && negb (is_upper c) = is_lower_alnum c.
Proof. ascii_cases c. Qed.

Lemma ch_lower_alnum_facts c :
  implb (is_lower_alnum c) (is_alnum c && negb (is_upper c) && negb (is_space c)) = true.
Proof. ascii_cases c. Qed.

Lemma ch_space_alsp : alnum_or_space " " = true.
Proof. reflexivity. Qed.

Lemma letter_facts c : is_letter c = true ->
  Ascii.eqb (ascii_upper c) " " = false /\ is_alnum (ascii_upper c) = true /\
  Ascii.eqb (ascii_lower c) " " = false /\ is_alnum (ascii_lower c) = true /\
  Ascii.eqb c " " = false.
Proof.
  intros H. assert (E := ch_letter_cases c). rewrite H in E. simpl in E.
  repeat (apply andb_prop in E as [E ?]). apply negb_true_iff in E.
  repeat match goal with Hn : negb _ = true |- _ => apply negb_true_iff in Hn end.
  repeat split; assumption.
Qed.

Lemma alnum_facts c : is_alnum c = true -> is_space c = false /\ Ascii.eqb c " " = false.
Proof.
  intros H. assert (E := ch_alnum_not_space c). rewrite H in E. simpl in E.
  apply andb_prop in E as [E1 E2]. apply negb_true_iff in E1, E2. auto.
Qed.

Lemma alsp_space c : alnum_or_space c = true -> is_space c = Ascii.eqb c " ".
Proof.
  intros H. assert (E := ch_alsp_space c). rewrite H in E. simpl in E.
  apply Bool.eqb_prop in E. exact E.
Qed.

(* ----------------------------------------------------------------- *)
(** Character classes through the string functions. *)

Lemma all_chars_rstrip q p s : all_chars q s = true -> all_chars q (rstrip_by p s) = true.
Proof.
  induction s as [|c s IH]; simpl; [auto|]. intros [Hc Hs]%andb_prop.
  destruct (_ && p c); simpl; [reflexivity|]. rewrite Hc, IH by exact Hs. reflexivity.
Qed.

Lemma all_chars_lstrip q p s : all_chars q s = true -> all_chars q (lstrip_by p s) = true.
Proof.
  induction s as [|c s IH]; simpl; [auto|]. intros H.
  destruct (p c); [apply IH; apply andb_prop in H as [_ H]; exact H|exact H].
Qed.

Lemma all_chars_keep q k s :
  all_chars q s = true -> all_chars (fun c => k c && q c) (keep_chars k s) = true.
Proof.
  induction s as [|c s IH]; simpl; [auto|]. intros [Hc Hs]%andb_prop.
  destruct (k c) eqn:Ek; simpl; [rewrite Ek, Hc|]; apply IH; exact Hs.
Qed.

Lemma all_chars_collapse q b s :
  q " "%char = true -> all_chars q s = true -> all_chars q (collapse_ws b s) = true.
Proof.
  intros Hq. revert b. induction s as [|c s IH]; intros b; simpl; [auto|].
  intros [Hc Hs]%andb_prop.
  destruct (is_space c), b; simpl; rewrite ?Hq, ?Hc; apply IH; exact Hs.
Qed.

Lemma all_chars_lower s : all_chars (fun c => negb (is_upper c)) (py_lower s) = true.
Proof. induction s as [|c s IH]; simpl; [auto|]. rewrite ch_lower_not_upper, IH. reflexivity. Qed.

Lemma all_chars_mono p q s :
  (forall c, p c = true -> q c = true) -> all_chars p s = true -> all_chars q s = true.
Proof.
  intros Hpq. induction s as [|c s IH]; simpl; [auto|].
  intros [Hc Hs]%andb_prop. rewrite (Hpq c Hc), (IH Hs). reflexivity.
Qed.

Lemma all_chars_and p q s :
  all_chars p s = true -> all_chars q s = true -> all_chars (fun c => p c && q c) s = true.
Proof.
  induction s as [|c s IH]; simpl; [auto|].
  intros [Hp Hs]%andb_prop [Hq Hs']%andb_prop. rewrite Hp, Hq, (IH Hs Hs'). reflexivity.
Qed.

(* ----------------------------------------------------------------- *)
(** Functions that leave a string unchanged. *)

Lemma py_lower_id s : all_chars (fun c => negb (is_upper c)) s = true -> py_lower s = s.
Proof.
  induction s as [|c s IH]; simpl; [auto|]. intros [Hc Hs]%andb_prop.
  apply negb_true_iff in Hc. rewrite ch_lower_id, IH by assumption. reflexivity.
Qed.

Lemma keep_chars_id k s : all_chars k s = true -> keep_chars k s = s.
Proof.
  induction s as [|c s IH]; simpl; [auto|]. intros [Hc Hs]%andb_prop.
  rewrite Hc, IH by exact Hs. reflexivity.
Qed.

Lemma rstrip_by_id p s : all_chars (fun c => negb (p c)) s = true -> rstrip_by p s = s.
Proof.
  induction s as [|c s IH]; simpl; [auto|]. intros [Hc Hs]%andb_prop.
  apply negb_true_iff in Hc. rewrite Hc, andb_false_r, IH by exact Hs. reflexivity.
Qed.

Lemma lstrip_by_id p s : all_chars (fun c => negb (p c)) s = true -> lstrip_by p s = s.
Proof.
  destruct s as [|c s]; simpl; [auto|]. intros [Hc _]%andb_prop.
  apply negb_true_iff in Hc. rewrite Hc. reflexivity.
Qed.

(* ----------------------------------------------------------------- *)
(** The word structure through [collapse_ws], [strip] and [title]. *)

Lemma nd_collapse b s :
  all_chars alnum_or_space s = true -> no_double_space b (collapse_ws b s) = true.
Proof.
  revert b. induction s as [|c s IH]; intros b; simpl; [auto|].
  intros [Hc Hs]%andb_prop. rewrite (alsp_space c Hc).
  destruct (Ascii.eqb c " ") eqn:Ec.
  - destruct b; simpl; [apply IH; exact Hs|]. apply IH. exact Hs.
  - simpl. rewrite Ec. unfold alnum_or_space in Hc. rewrite Ec, orb_false_r in Hc.
    rewrite Hc. apply IH. exact Hs.
Qed.

Lemma words_rstrip b s :
  no_double_space b s = true ->
  rstrip_by is_space s = "" \/ words_ok b (rstrip_by is_space s) = true.
Proof.
  revert b. induction s as [|c s IH]; intros b; simpl; [auto|].
  destruct (Ascii.eqb c " ") eqn:Ec.
  - apply Ascii.eqb_eq in Ec. subst c. intros [Hb Hs]%andb_prop.
    destruct (IH true Hs) as [E|E].
    + left. rewrite E. reflexivity.
    + destruct (String.eqb (rstrip_by is_space s) "") eqn:E'.
      * apply String.eqb_eq in E'. left. reflexivity.
      * right. simpl. rewrite Hb, E. reflexivity.
  - intros [Hc Hs]%andb_prop. destruct (alnum_facts c Hc) as [Hsp _].
    rewrite Hsp, andb_false_r. right. simpl. rewrite Ec, Hc.
    destruct (IH false Hs) as [E|E]; [rewrite E; reflexivity|exact E].
Qed.

Lemma words_lstrip b s :
  words_ok b s = true -> lstrip_by is_space s = "" \/ words_ok true (lstrip_by is_space s) = true.
Proof.
  revert b. induction s as [|c s IH]; intros b; simpl; [auto|].
  destruct (Ascii.eqb c " ") eqn:Ec.
  - apply Ascii.eqb_eq in Ec. subst c. intros [_ Hs]%andb_prop. simpl. exact (IH true Hs).
  - intros H. apply andb_prop in H as [Hc Hs]. destruct (alnum_facts c Hc) as [Hsp _].
    rewrite Hsp. right. simpl. rewrite Ec, Hc. exact Hs.
Qed.

Lemma words_title pc b s : words_ok b (py_title_from pc s) = words_ok b s.
Proof.
  revert pc b. induction s as [|c s IH]; intros pc b; simpl; [reflexivity|].
  destruct (is_letter c) eqn:El.
  - destruct (letter_facts c El) as (U1 & U2 & L1 & L2 & C1).
    assert (Ha : is_alnum c = true) by (unfold is_alnum; rewrite El; reflexivity).
    simpl. rewrite C1, Ha. destruct pc; [rewrite L1, L2|rewrite U1, U2]; simpl; apply IH.
  - simpl. destruct (Ascii.eqb c " "); rewrite IH; reflexivity.
Qed.

Lemma words_nd b s : words_ok b s = true -> no_double_space b s = true.
Proof.
  revert b. induction s as [|c s IH]; intros b; simpl; [auto|].
  destruct (Ascii.eqb c " "); intros [H1 H2]%andb_prop; rewrite H1; apply IH; exact H2.
Qed.

Lemma words_alsp b s : words_ok b s = true -> all_chars alnum_or_space s = true.
Proof.
  revert b. induction s as [|c s IH]; intros b; simpl; [auto|].
  unfold alnum_or_space at 1.
  destruct (Ascii.eqb c " ") eqn:Ec; intros [H1 H2]%andb_prop; rewrite ?H1, ?orb_true_r;
    simpl; apply (IH _ H2).
Qed.

Lemma collapse_id b s : no_double_space b s = true -> collapse_ws b s = s.
Proof.
  revert b. induction s as [|c s IH]; intros b; simpl; [auto|].
  destruct (Ascii.eqb c " ") eqn:Ec.
  - apply Ascii.eqb_eq in Ec. subst c. intros [Hb Hs]%andb_prop. apply negb_true_iff in Hb.
    subst b. simpl. rewrite IH by exact Hs. reflexivity.
  - intros [Hc Hs]%andb_prop. destruct (alnum_facts c Hc) as [Hsp _].
    rewrite Hsp, IH by exact Hs. reflexivity.
Qed.

Lemma words_rstrip_id b s : words_ok b s = true -> rstrip_by is_space s = s.
Proof.
  revert b. induction s as [|c s IH]; intros b; simpl; [auto|].
  destruct (Ascii.eqb c " ") eqn:Ec.
  - apply Ascii.eqb_eq in Ec. subst c. intros [_ Hs]%andb_prop.
    rewrite (IH true Hs). destruct s; [discriminate|reflexivity].
  - intros [Hc Hs]%andb_prop. destruct (alnum_facts c Hc) as [Hsp _].
    rewrite Hsp, andb_false_r, (IH false Hs). reflexivity.
Qed.

Lemma words_lstrip_id s : words_ok true s = true -> lstrip_by is_space s = s.
Proof.
  destruct s as [|c s]; simpl; [auto|]. destruct (Ascii.eqb c " "); [discriminate|].
  intros [Hc _]%andb_prop. destruct (alnum_facts c Hc) as [Hsp _]. rewrite Hsp. reflexivity.
Qed.

Lemma words_concat_gen s :
  (words_ok true s = true ->
   exists ws, ws <> [] /\ Forall (fun w => w <> "" /\ all_chars is_alnum w = true) ws /\
              s = String.concat " " ws) /\
  (words_ok false s = true ->
   exists w ws, all_chars is_alnum w = true /\
                Forall (fun w => w <> "" /\ all_chars is_alnum w = true) ws /\
                s = String.concat " " (w :: ws)).
Proof.
  induction s as [|c s [IHt IHf]]; simpl.
  - split; [discriminate|]. intros _. exists "", []. split; [reflexivity|]. split; [constructor|reflexivity].
  - destruct (Ascii.eqb c " ") eqn:Ec.
    + apply Ascii.eqb_eq in Ec. subst c. split; [discriminate|]. intros Hs.
      destruct (IHt Hs) as (ws & Hne & Hf & ->).
      exists "", ws. split; [reflexivity|]. split; [exact Hf|].
      destruct ws as [|w ws]; [congruence|]. reflexivity.
    + split; intros [Hc Hs]%andb_prop; destruct (IHf Hs) as (w & ws & Hw & Hf & ->).
      * exists (String c w :: ws). split; [discriminate|]. split; [|destruct ws; reflexivity].
        constructor; [|exact Hf]. split; [discriminate|]. simpl. rewrite Hc, Hw. reflexivity.
      * exists (String c w), ws. split; [simpl; rewrite Hc, Hw; reflexivity|].
        split; [exact Hf|]. destruct ws; reflexivity.
Qed.


(** [normalize_title] yields digits and lowercase letters only, and it
    maps such a string to itself when [unidecode] leaves it alone. *)
Theorem normalize_title_output unidecode t x :
  normalize_title unidecode t = Ret x ->
  all_chars is_lower_alnum x = true /\
  (unidecode x = x -> normalize_title unidecode (JStr x) = Ret x).
Proof.
  unfold normalize_title. intros H.
  assert (Hx : all_chars is_lower_alnum x = true).
  { destruct (negb (truthy t)); [injection H as <-; reflexivity|].
    destruct (as_str t) as [s|e]; [|discriminate]. simpl in H. injection H as <-.
    apply (all_chars_mono (fun c => is_alnum c && negb (is_upper c)));
      [intros c Hc; rewrite <- ch_lower_alnum; exact Hc|].
    apply all_chars_keep. unfold py_strip.
    apply all_chars_lstrip, all_chars_rstrip, all_chars_lower. }
  split; [exact Hx|]. intros Hu.
  destruct (String.eqb x "") eqn:Ee; [apply String.eqb_eq in Ee; subst x; reflexivity|].
  simpl. rewrite Ee. simpl. rewrite Hu.
  assert (Hf : forall c, is_lower_alnum c = true ->
                 is_alnum c = true /\ is_upper c = false /\ is_space c = false).
  { intros c Hc. assert (E := ch_lower_alnum_facts c). rewrite Hc in E. simpl in E.
    apply andb_prop in E as [E E3]. apply andb_prop in E as [E1 E2].
    apply negb_true_iff in E2, E3. auto. }
  rewrite py_lower_id by (apply (all_chars_mono is_lower_alnum _ x); [|exact Hx];
                          intros c Hc; destruct (Hf c Hc) as (_ & -> & _); reflexivity).
  unfold py_strip.
  rewrite rstrip_by_id by (apply (all_chars_mono is_lower_alnum _ x); [|exact Hx];
                           intros c Hc; destruct (Hf c Hc) as (_ & _ & ->); reflexivity).
  rewrite lstrip_by_id by (apply (all_chars_mono is_lower_alnum _ x); [|exact Hx];
                           intros c Hc; destruct (Hf c Hc) as (_ & _ & ->); reflexivity).
  rewrite keep_chars_id by (apply (all_chars_mono is_lower_alnum _ x); [|exact Hx];
                            intros c Hc; destruct (Hf c Hc) as (-> & _); reflexivity).
  reflexivity.
Qed.

(** The cleaned title before [title()]: lower-case words of letters and
    digits. *)
Lemma clean_core_shape s :
  let y := py_strip (collapse_ws false (keep_chars alnum_or_space (py_lower s))) in
  (y = "" \/ words_ok true y = true) /\ all_chars (fun c => negb (is_upper c)) y = true.
Proof.
  intros y. split.
  - assert (Hk : all_chars alnum_or_space (keep_chars alnum_or_space (py_lower s)) = true).
    { apply (all_chars_mono (fun c => alnum_or_space c && true)).
      - intros c Hc. rewrite andb_true_r in Hc. exact Hc.
      - apply all_chars_keep. apply (all_chars_mono (fun _ => true)); [auto|].
        clear. induction (py_lower s); simpl; auto. }
    assert (Hn := nd_collapse false _ Hk). unfold y, py_strip.
    destruct (words_rstrip false _ Hn) as [E|E].
    + left. rewrite E. reflexivity.
    + exact (words_lstrip false _ E).
  - unfold y, py_strip. apply all_chars_lstrip, all_chars_rstrip.
    apply all_chars_collapse; [reflexivity|].
    apply (all_chars_mono (fun c => alnum_or_space c && negb (is_upper c))).
    + intros c Hc. apply andb_prop in Hc as [_ Hc]. exact Hc.
    + apply all_chars_keep, all_chars_lower.
Qed.

Lemma py_lower_title pc s : py_lower (py_title_from pc s) = py_lower s.
Proof.
  revert pc. induction s as [|c s IH]; intros pc; simpl; [reflexivity|].
  destruct (is_letter c); simpl; [destruct pc; rewrite ?ch_lower_lower, ?ch_lower_upper|];
    rewrite IH; reflexivity.
Qed.

(** [generate_clean_title]: a falsy title gives ["Unknown-Title"];
    otherwise the result is a sequence of non-empty words of letters
    and digits joined by single spaces (no space at either end), and a
    non-empty result is cleaned to itself. *)
Theorem generate_clean_title_shape t x :
  generate_clean_title t = Ret x ->
  (truthy t = false -> x = "Unknown-Title") /\
  (truthy t = true ->
   (exists ws, Forall (fun w => w <> "" /\ all_chars is_alnum w = true) ws /\
               x = String.concat " " ws) /\
   (x <> "" -> generate_clean_title (JStr x) = Ret x)).
Proof.
  unfold generate_clean_title. intros H.
  destruct (truthy t) eqn:Et; simpl in H.
  2:{ injection H as <-. split; [reflexivity|discriminate]. }
  split; [discriminate|]. intros _.
  destruct (as_str t) as [s|e]; [|discriminate]. simpl in H. injection H as <-.
  destruct (clean_core_shape s) as [Hw Hl].
  set (y := py_strip (collapse_ws false (keep_chars alnum_or_space (py_lower s)))) in *.
  change (py_strip (collapse_ws false (keep_chars (fun c => is_alnum c || Ascii.eqb c " ") (py_lower s))))
    with y.
  split.
  - destruct Hw as [E|E].
    + exists []. split; [constructor|]. rewrite E. reflexivity.
    + destruct (proj1 (words_concat_gen (py_title y))) as (ws & _ & Hf & Hc);
        [unfold py_title; rewrite words_title; exact E|].
      exists ws. split; assumption.
  - intros Hne. destruct Hw as [E|E]; [rewrite E in Hne; contradiction|].
    assert (Ht : truthy (JStr (py_title y)) = true).
    { simpl. destruct (String.eqb (py_title y) "") eqn:Ee; [|reflexivity].
      apply String.eqb_eq in Ee. contradiction. }
    rewrite Ht. simpl. unfold py_title at 2. rewrite py_lower_title, py_lower_id by exact Hl.
    change (fun c => is_alnum c || Ascii.eqb c " ") with alnum_or_space.
    rewrite keep_chars_id by exact (words_alsp true y E).
    rewrite collapse_id with (b := false).
    + unfold py_strip. rewrite (words_rstrip_id true y E), (words_lstrip_id y E). reflexivity.
    + destruct y as [|c y']; [discriminate|].
      assert (Hn := words_nd true _ E). simpl in Hn |- *.
      destruct (Ascii.eqb c " "); [discriminate|]. exact Hn.
Qed.


Lemma brace_body_spec s b r :
  brace_body s = Some (b, r) -> brace_free b = true /\ s = b ++ "}" ++ r.
Proof.
  revert b r. induction s as [|c s IH]; intros b r; cbn [brace_body]; [discriminate|].
  destruct (Ascii.eqb c rbrace) eqn:Er.
  - intros [= <- <-]. apply Ascii.eqb_eq in Er. subst c. split; reflexivity.
  - destruct (Ascii.eqb c lbrace) eqn:El; [discriminate|].
    destruct (brace_body s) as [[b' r']|]; [|discriminate]. intros [= <- <-].
    destruct (IH b' r' eq_refl) as [Hb ->]. split.
    + cbn [brace_free]. unfold is_brace. rewrite El, Er, Hb. reflexivity.
    + reflexivity.
Qed.

Lemma findall_fuel_tokens fuel s t :
  In t (findall_fuel fuel s) ->
  exists b a r, t = tok_text b /\ b <> "" /\ brace_free b = true /\ s = a ++ t ++ r.
Proof.
  revert s. induction fuel as [|fuel IH]; intros s; cbn [findall_fuel]; [intros []|].
  destruct s as [|c s]; [intros []|].
  destruct (Ascii.eqb c lbrace) eqn:El.
  - apply Ascii.eqb_eq in El. subst c.
    destruct (brace_body s) as [[b r]|] eqn:Hb.
    + destruct (brace_body_spec s b r Hb) as [Hf Hs].
      destruct (String.eqb b "") eqn:Eb.
      * intros H. destruct (IH s H) as (b' & a & r' & Ht & Hn & Hbf & Hs').
        exists b', (String lbrace a), r'. repeat split; try assumption.
        rewrite Hs'. reflexivity.
      * intros [<-|H].
        -- exists b, "", r. split; [reflexivity|]. split; [apply String.eqb_neq; exact Eb|].
           split; [exact Hf|]. rewrite Hs. unfold tok_text.
           rewrite str_app_nil, !str_app_assoc. reflexivity.
        -- destruct (IH r H) as (b' & a & r' & Ht & Hn & Hbf & Hr).
           exists b', (String lbrace (b ++ "}" ++ a)), r'. repeat split; try assumption.
           rewrite Hs, Hr. apply (f_equal (String lbrace)). rewrite !str_app_assoc. reflexivity.
    + intros H. destruct (IH s H) as (b' & a & r' & Ht & Hn & Hbf & Hs').
      exists b', (String lbrace a), r'. repeat split; try assumption. rewrite Hs'. reflexivity.
  - intros H. destruct (IH s H) as (b' & a & r' & Ht & Hn & Hbf & Hs').
    exists b', (String c a), r'. repeat split; try assumption. rewrite Hs'. reflexivity.
Qed.

(** Every token [get_folder_name_tokens] returns is a piece [{name}] of
    the format, with a non-empty name holding no brace. *)
Theorem get_folder_name_tokens_sound fmt t :
  In t (get_folder_name_tokens fmt) ->
  exists name before after, t = "{" ++ name ++ "}" /\ name <> "" /\ brace_free name = true /\
    fmt = before ++ t ++ after.
Proof. apply findall_fuel_tokens. Qed.

Lemma dict_set_fst {V} k v (d : list (string * V)) :
  map fst (dict_set k v d) =
  if existsb (String.eqb k) (map fst d) then map fst d else (map fst d ++ [k])%list.
Proof.
  induction d as [|[k0 v0] d IH]; cbn [dict_set map fst existsb]; [reflexivity|].
  destruct (String.eqb k k0) eqn:E.
  - apply String.eqb_eq in E as <-. reflexivity.
  - cbn [map fst orb]. rewrite IH. destruct (existsb _ _); reflexivity.
Qed.

Lemma dict_set_nodup {V} k v (d : list (string * V)) :
  NoDup (map fst d) -> NoDup (map fst (dict_set k v d)).
Proof.
  intros H. rewrite dict_set_fst. destruct (existsb (String.eqb k) (map fst d)) eqn:Hk; [exact H|].
  apply NoDup_app. split; [exact H|]. split; [|apply NoDup_singleton].
  intros x Hx ->%list_elem_of_singleton. apply list_elem_of_In in Hx.
  assert (Hs : existsb (String.eqb k) (map fst d) = true).
  { apply existsb_exists. exists k. split; [exact Hx|apply String.eqb_refl]. }
  congruence.
Qed.

Lemma extract_acc_nodup movie toks acc tv :
  NoDup (map fst acc) -> extract_token_values_acc movie toks acc = Ret tv -> NoDup (map fst tv).
Proof.
  revert acc. induction toks as [|t toks IH]; intros acc Hn H; cbn [extract_token_values_acc] in H.
  - injection H as <-. exact Hn.
  - destruct (movie_token_value movie t) as [v|e]; [|discriminate].
    exact (IH _ (dict_set_nodup _ _ _ Hn) H).
Qed.

(** [extract_token_values] builds one entry per distinct token of the
    list, holding the value [movie_token_value] resolves for it. *)
Theorem extract_token_values_entries movie toks tv :
  extract_token_values movie toks = Ret tv ->
  NoDup (map fst tv) /\ (forall k, In k (map fst tv) <-> In k toks) /\
  (forall k v, In (k, v) tv -> movie_token_value movie k = Ret v).
Proof.
  intros H. destruct (extract_acc_spec movie toks [] tv H) as [H1 H2].
  split; [exact (extract_acc_nodup movie toks [] tv (NoDup_nil_2) H)|]. split.
  - intros k. split.
    + intros Hk. apply in_map_iff in Hk as ([k' v] & <- & Hin).
      destruct (H1 k' v Hin) as [[]|[Ht _]]. exact Ht.
    + intros Hk. apply H2. left. exact Hk.
  - intros k v Hin. destruct (H1 k v Hin) as [[]|[_ Hm]]. exact Hm.
Qed.


Lemma prefix_app_inv a s : String.prefix a s = true -> exists t, s = a ++ t.
Proof.
  revert s. induction a as [|c a IH]; intros s H; [exists s; reflexivity|].
  destruct s as [|d s]; [discriminate|]. simpl in H.
  destruct (ascii_dec c d) as [<-|]; [|discriminate].
  destruct (IH s H) as [t ->]. exists t. reflexivity.
Qed.

Lemma rstrip_slash_cons c a :
  rstrip_slash (String c a) = String c a ->
  rstrip_slash a = a /\ (a = "" -> c <> slash).
Proof.
  unfold rstrip_slash. cbn [rstrip_by].
  destruct (String.eqb (rstrip_by _ a) "" && Ascii.eqb c slash) eqn:E; [discriminate|].
  intros [= H]. split; [exact H|]. intros ->. cbn in E.
  intros ->. discriminate.
Qed.

Lemma replace_slashes_app a b :
  py_contains "//" a = false -> rstrip_slash a = a ->
  replace_from "//" "/" 0 (a ++ b) = a ++ replace_from "//" "/" 0 b.
Proof.
  induction a as [|c a IH]; intros Hc Hr; [reflexivity|].
  destruct (rstrip_slash_cons c a Hr) as [Hr' Hlast].
  cbn [py_contains] in Hc. apply orb_false_iff in Hc as [Hp Hc'].
  rewrite str_app_cons. cbn [replace_from].
  assert (Hp' : String.prefix "//" (String c (a ++ b)) = false).
  { destruct a as [|d a].
    - cbn [String.prefix].
      destruct (ascii_dec "/" c) as [E|E]; [exfalso; exact (Hlast eq_refl (eq_sym E))|reflexivity].
    - rewrite str_app_cons. revert Hp. cbn [String.prefix].
      destruct (ascii_dec "/" c); destruct (ascii_dec "/" d); intros H;
        first [exact H | (exfalso; destruct a; discriminate H)]. }
  rewrite Hp', IH by assumption. reflexivity.
Qed.

Lemma rstrip_slash_app a b :
  rstrip_slash a = a -> rstrip_slash (a ++ b) = a ++ rstrip_slash b.
Proof.
  induction a as [|c a IH]; intros Hr; [reflexivity|].
  destruct (rstrip_slash_cons c a Hr) as [Hr' Hlast].
  rewrite str_app_cons. unfold rstrip_slash in *. cbn [rstrip_by].
  rewrite IH by exact Hr'.
  destruct a as [|d a].
  - rewrite str_app_nil. destruct (Ascii.eqb c slash) eqn:E.
    + apply Ascii.eqb_eq in E. exfalso. exact (Hlast eq_refl E).
    + rewrite andb_false_r. reflexivity.
  - rewrite str_app_cons. reflexivity.
Qed.

Lemma replace_slashes_lead t : exists x, replace_from "//" "/" 0 (String slash t) = String slash x.
Proof.
  cbn [replace_from]. destruct (String.prefix "//" (String slash t)).
  - eexists. reflexivity.
  - eexists. reflexivity.
Qed.

(** A root folder without a doubled or trailing separator is a prefix
    of every movie path [generate_new_path] builds for it; when the
    substituted template does not already start with the root, a
    separator follows the root. *)
Theorem generate_new_path_under_root root fmt tv :
  py_contains "//" root = false -> rstrip_slash root = root ->
  exists rest, generate_new_path root fmt tv = root ++ rest /\
    (startswith (substitute_tokens fmt tv) root = false -> exists r, rest = "/" ++ r).
Proof.
  intros Hc Hr. unfold generate_new_path, py_replace. cbn [String.eqb].
  destruct (startswith (substitute_tokens fmt tv) root) eqn:Hs.
  - unfold startswith in Hs. apply prefix_app_inv in Hs as [t Ht]. rewrite Ht.
    rewrite replace_slashes_app, rstrip_slash_app by assumption.
    eexists. split; [apply str_app_assoc|discriminate].
  - rewrite replace_slashes_app, rstrip_slash_app by assumption.
    destruct (replace_slashes_lead (substitute_tokens fmt tv)) as [x Hx].
    change ("/" ++ substitute_tokens fmt tv) with (String slash (substitute_tokens fmt tv)).
    rewrite Hx. unfold rstrip_slash at 1. cbn [rstrip_by].
    destruct (String.eqb (rstrip_by (fun c => Ascii.eqb c slash) x) "" && Ascii.eqb slash slash).
    + exists "/". split; [rewrite str_app_assoc; reflexivity|]. intros _. exists "". reflexivity.
    + eexists. split; [rewrite str_app_assoc; reflexivity|]. intros _. eexists. reflexivity.
Qed.


(* ----------------------------------------------------------------- *)
(** *** [get_queue] and [wait_for_completion] *)

(** The ["records"] field of the queue: a list of tasks, or another
    JSON value. *)
Inductive qvalue := QList (tasks : list item) | QScalar (v : jval).

(** An answer of [GET /api/v3/queue]. *)
Inductive queue_response :=
| QueueFailed                      (* request error, error status or non-JSON body *)
| QueueRecords (records : qvalue)  (* a dict with a "records" key *)
| QueueUnexpected.                 (* any other JSON value *)

(** [get_queue] *)
Definition get_queue (r : queue_response) : qvalue :=
  match r with
  | QueueRecords records => records
  | QueueFailed | QueueUnexpected => QList []
  end.

(** [isinstance(task, dict) and task.get("status") not in ["completed", "warning"]] *)
Definition is_active (task : item) : bool :=
  match task with
  | ItemDict d =>
      let s := py_get d "status" JNull in
      negb (bool_decide (s = JStr "completed") || bool_decide (s = JStr "warning"))
  | ItemOther _ => false
  end.

(** The loop [for attempt in range(max_retries)]. *)
Fixpoint completion_loop (poll : nat -> queue_response) (attempt fuel last_non_empty_attempt : nat)
    : bool :=
  match fuel with
  | O => false
  | S fuel' =>
      match get_queue (poll attempt) with
      | QScalar _ => false
      | QList arr_queue =>
          match List.filter is_active arr_queue with
          | [] =>
              if (3 <=? attempt - last_non_empty_attempt)%nat then true
              else completion_loop poll (S attempt) fuel' last_non_empty_attempt
          | _ => completion_loop poll (S attempt) fuel' attempt
          end
      end
  end.

(** [wait_for_completion(arr_url, arr_api_key, max_retries)]; [poll a]
    is the queue answered at attempt [a]. *)
Definition wait_for_completion (poll : nat -> queue_response) (max_retries : nat) : bool :=
  completion_loop poll 0 max_retries 0.

(* ----------------------------------------------------------------- *)
(** *** [check_radarr_move_logs] *)

(** An answer of [GET /api/v3/log?page=1&pageSize=50]. *)
Inductive log_response :=
| LogRequestError                  (* requests.get raised *)
| LogStatus (code : Z)             (* a status other than 200 *)
| LogOk (records : list item).     (* status 200: the ["records"] array ([[]] when absent) *)

(** [log["logger"] == "MoveMovieService"]: a record that is not a dict
    raises [TypeError]. *)
Definition is_move_log (log : item) : outcome bool :=
  match log with
  | ItemDict d =>
      let! l := py_getitem d "logger" in Ret (bool_decide (l = JStr "MoveMovieService"))
  | ItemOther _ => Raise "TypeError"
  end.

(** [[log for log in logs if log["logger"] == "MoveMovieService"]] *)
Fixpoint move_logs (logs : list item) : outcome (list item) :=
  match logs with
  | [] => Ret []
  | log :: logs' =>
      let! b := is_move_log log in
      let! rest := move_logs logs' in
      Ret (if b then log :: rest else rest)
  end.

Fixpoint move_logs_loop (poll : nat -> log_response) (attempt fuel : nat) : outcome bool :=
  match fuel with
  | O => Ret false
  | S fuel' =>
      match poll attempt with
      | LogRequestError => Raise "RequestException"
      | LogStatus _ => move_logs_loop poll (S attempt) fuel'
      | LogOk logs =>
          let! ml := move_logs logs in
          match ml with
          | [] => Ret true
          | _ => move_logs_loop poll (S attempt) fuel'
          end
      end
  end.

(** [check_radarr_move_logs()] with [max_attempts = 10]; [poll a] is the
    answer of the request made at attempt [a]. *)
Definition check_radarr_move_logs (poll : nat -> log_response) : outcome bool :=
  move_logs_loop poll 0 10.

(* ----------------------------------------------------------------- *)

Lemma completion_loop_spec poll fuel : forall attempt last,
  (last <= attempt)%nat ->
  (forall b, (last < b < attempt)%nat ->
     exists q, get_queue (poll b) = QList q /\ List.filter is_active q = []) ->
  (last = 0%nat \/ forall q, get_queue (poll last) = QList q -> List.filter is_active q <> []) ->
  completion_loop poll attempt fuel last = true <->
  exists a, (attempt <= a < attempt + fuel)%nat /\ (3 <= a)%nat /\
    (forall b, (attempt <= b <= a)%nat -> exists q, get_queue (poll b) = QList q /\
               ((a - 2 <= b)%nat -> List.filter is_active q = [])) /\
    (forall b, (a - 2 <= b < attempt)%nat -> exists q, get_queue (poll b) = QList q /\
               List.filter is_active q = []).
Proof.
  induction fuel as [|fuel IH]; intros attempt last Hle Hq Hl; cbn [completion_loop].
  - split; [discriminate|]. intros (a & Ha & _). lia.
  - destruct (get_queue (poll attempt)) as [q|v] eqn:Hp.
    + destruct (List.filter is_active q) as [|t ts] eqn:Hf.
      * destruct (3 <=? attempt - last)%nat eqn:E3.
        -- apply Nat.leb_le in E3. split; [intros _|reflexivity].
           exists attempt. split; [lia|]. split; [lia|]. split.
           ++ intros b Hb. replace b with attempt by lia. exists q. auto.
           ++ intros b Hb. apply Hq. lia.
        -- apply Nat.leb_gt in E3. rewrite IH.
           ++ split.
              ** intros (a & Ha & H3 & Hin & Hout). exists a. split; [lia|]. split; [exact H3|].
                 split.
                 --- intros b Hb. destruct (decide (b = attempt)) as [->|Hne].
                     +++ exists q. auto.
                     +++ apply Hin. lia.
                 --- intros b Hb. apply Hout. lia.
              ** intros (a & Ha & H3 & Hin & Hout).
                 destruct (decide (a = attempt)) as [->|Hne].
                 { exfalso. destruct Hl as [->|Hl]; [lia|].
                   destruct (decide (last = attempt)) as [->|Hne']; [exact (Hl q Hp Hf)|].
                   destruct (decide (attempt - 2 <= last)%nat) as [Hw|Hw]; [|lia].
                   destruct (Hout last) as (q' & Hq' & Hf'); [lia|].
                   exact (Hl q' Hq' Hf'). }
                 exists a. split; [lia|]. split; [exact H3|]. split.
                 --- intros b Hb. apply Hin. lia.
                 --- intros b Hb. destruct (decide (b = attempt)) as [->|Hne'].
                     +++ destruct (Hin attempt) as (q' & Hq' & Hf'); [lia|].
                         exists q'. split; [exact Hq'|]. apply Hf'. lia.
                     +++ apply Hout. lia.
           ++ lia.
           ++ intros b Hb. destruct (decide (b = attempt)) as [->|Hne].
              ** exists q. auto.
              ** apply Hq. lia.
           ++ exact Hl.
      * rewrite IH.
        -- split.
           ++ intros (a & Ha & H3 & Hin & Hout). exists a. split; [lia|]. split; [exact H3|].
              split.
              ** intros b Hb. destruct (decide (b = attempt)) as [->|Hne].
                 --- exists q. split; [exact Hp|]. intros Hb'.
                     destruct (Hout attempt) as (q' & Hq' & Hf'); [lia|].
                     rewrite Hp in Hq'. injection Hq' as <-. exact Hf'.
                 --- apply Hin. lia.
              ** intros b Hb. apply Hout. lia.
           ++ intros (a & Ha & H3 & Hin & Hout).
              destruct (decide (a = attempt)) as [->|Hne].
              { exfalso. destruct (Hin attempt) as (q' & Hq' & Hf'); [lia|].
                rewrite Hp in Hq'. injection Hq' as <-. rewrite Hf' in Hf by lia. discriminate. }
              exists a. split; [lia|]. split; [exact H3|]. split.
              ** intros b Hb. apply Hin. lia.
              ** intros b Hb. destruct (decide (b = attempt)) as [->|Hne'].
                 --- destruct (Hin attempt) as (q' & Hq' & Hf'); [lia|].
                     exists q'. split; [exact Hq'|]. apply Hf'. lia.
                 --- apply Hout. lia.
        -- lia.
        -- intros b Hb. lia.
        -- right. intros q' Hq'. rewrite Hp in Hq'. injection Hq' as <-. rewrite Hf. discriminate.
    + split; [discriminate|]. intros (a & Ha & _ & Hin & _).
      destruct (Hin attempt) as (q' & Hq' & _); [lia|]. congruence.
Qed.

(** [wait_for_completion] returns [True] exactly when, within the
    [max_retries] polls, there is an attempt [a >= 3] such that every
    queue read up to [a] is a list and the three reads [a-2], [a-1],
    [a] hold no active task. *)
Theorem wait_for_completion_spec poll max_retries :
  wait_for_completion poll max_retries = true <->
  exists a, (3 <= a < max_retries)%nat /\
    (forall b, (b <= a)%nat -> exists q, get_queue (poll b) = QList q /\
               ((a - 2 <= b)%nat -> List.filter is_active q = [])).
Proof.
  unfold wait_for_completion. rewrite completion_loop_spec.
  - split.
    + intros (a & Ha & H3 & Hin & _). exists a. split; [lia|]. intros b Hb. apply Hin. lia.
    + intros (a & Ha & Hin). exists a. split; [lia|]. split; [lia|]. split.
      * intros b Hb. apply Hin. lia.
      * intros b Hb. lia.
  - lia.
  - intros b Hb. lia.
  - left. reflexivity.
Qed.

Lemma move_logs_ret logs ml :
  move_logs logs = Ret ml <->
  (forall log, In log logs -> exists d l, log = ItemDict d /\ d !! "logger" = Some l) /\
  ml = List.filter (fun log => match log with
                               | ItemDict d => bool_decide (d !! "logger" = Some (JStr "MoveMovieService"))
                               | ItemOther _ => false end) logs.
Proof.
  revert ml. induction logs as [|log logs IH]; intros ml; cbn [move_logs List.filter].
  - split.
    + intros [= <-]. split; [intros ? []|reflexivity].
    + intros [_ ->]. reflexivity.
  - destruct log as [d|v]; cbn [is_move_log bind_out].
    + unfold py_getitem. destruct (d !! "logger") as [l|] eqn:El; cbn [bind_out].
      * destruct (move_logs logs) as [rest|e] eqn:Er; cbn [bind_out].
        -- destruct (proj1 (IH rest) eq_refl) as [Hall ->].
           assert (bool_decide (l = JStr "MoveMovieService") =
                   bool_decide (Some l = Some (JStr "MoveMovieService"))) as ->.
           { apply bool_decide_ext. split; [intros ->|intros [= ->]]; reflexivity. }
           split.
           ++ intros [= <-]. split; [|reflexivity].
              intros x [<-|Hx]; [eauto|]. apply Hall. exact Hx.
           ++ intros [_ ->]. reflexivity.
        -- split; [discriminate|]. intros [Hall _]. exfalso.
           assert (Raise e = Ret (List.filter (fun log => match log with
                               | ItemDict d => bool_decide (d !! "logger" = Some (JStr "MoveMovieService"))
                               | ItemOther _ => false end) logs)) by
             (apply IH; split; [intros x Hx; apply Hall; right; exact Hx|reflexivity]).
           discriminate.
      * split; [discriminate|]. intros [Hall _].
        destruct (Hall _ (or_introl eq_refl)) as (d' & l' & [= <-] & Hl). congruence.
    + split; [discriminate|]. intros [Hall _].
      destruct (Hall _ (or_introl eq_refl)) as (d' & l' & [=] & _).
Qed.

Lemma move_logs_loop_spec poll fuel : forall attempt,
  move_logs_loop poll attempt fuel = Ret true <->
  exists a, (attempt <= a < attempt + fuel)%nat /\
    (forall b, (attempt <= b < a)%nat ->
       (exists code, poll b = LogStatus code) \/
       (exists logs ml, poll b = LogOk logs /\ move_logs logs = Ret ml /\ ml <> [])) /\
    exists logs, poll a = LogOk logs /\ move_logs logs = Ret [].
Proof.
  induction fuel as [|fuel IH]; intros attempt; cbn [move_logs_loop].
  - split; [discriminate|]. intros (a & Ha & _). lia.
  - destruct (poll attempt) as [|code|logs] eqn:Hp.
    + split; [discriminate|]. intros (a & Ha & Hb & logs & Hl & _).
      destruct (decide (a = attempt)) as [->|Hne]; [congruence|].
      destruct (Hb attempt) as [(c & Hc)|(l & ml & Hc & _)]; [lia|congruence|congruence].
    + rewrite IH. split.
      * intros (a & Ha & Hb & Hl). exists a. split; [lia|]. split; [|exact Hl].
        intros b Hb'. destruct (decide (b = attempt)) as [->|Hne]; [left; eexists; exact Hp|].
        apply Hb. lia.
      * intros (a & Ha & Hb & logs & Hl & Hm).
        destruct (decide (a = attempt)) as [->|Hne]; [congruence|].
        exists a. split; [lia|]. split; [intros b Hb'; apply Hb; lia|]. exists logs. auto.
    + destruct (move_logs logs) as [[|m ml]|e] eqn:Hm; cbn [bind_out].
      * split; [intros _|reflexivity]. exists attempt. split; [lia|]. split; [intros b Hb; lia|].
        exists logs. auto.
      * rewrite IH. split.
        -- intros (a & Ha & Hb & Hl). exists a. split; [lia|]. split; [|exact Hl].
           intros b Hb'. destruct (decide (b = attempt)) as [->|Hne].
           ++ right. exists logs, (m :: ml). split; [exact Hp|]. split; [exact Hm|discriminate].
           ++ apply Hb. lia.
        -- intros (a & Ha & Hb & logs' & Hl & Hm').
           destruct (decide (a = attempt)) as [->|Hne]; [congruence|].
           exists a. split; [lia|]. split; [intros b Hb'; apply Hb; lia|]. exists logs'. auto.
      * split; [discriminate|]. intros (a & Ha & Hb & logs' & Hl & Hm').
        destruct (decide (a = attempt)) as [->|Hne]; [congruence|].
        destruct (Hb attempt) as [(c & Hc)|(l & ml & Hc & Hml & _)]; [lia|congruence|].
        rewrite Hp in Hc. injection Hc as <-. congruence.
Qed.

Definition is_mms (log : item) : bool :=
  match log with
  | ItemDict d => bool_decide (d !! "logger" = Some (JStr "MoveMovieService"))
  | ItemOther _ => false
  end.

Lemma move_logs_page logs ml :
  move_logs logs = Ret ml ->
  (ml = [] <-> forall log, In log logs -> exists d l, log = ItemDict d /\
                 d !! "logger" = Some l /\ l <> JStr "MoveMovieService") /\
  (ml <> [] <-> (forall log, In log logs -> exists d l, log = ItemDict d /\ d !! "logger" = Some l) /\
                exists d, In (ItemDict d) logs /\ d !! "logger" = Some (JStr "MoveMovieService")).
Proof.
  intros H. apply move_logs_ret in H as [Hall Hml]. fold is_mms in Hml. subst ml.
  split; split.
  - intros Hnil log Hin. destruct (Hall log Hin) as (d & l & -> & Hl). exists d, l.
    split; [reflexivity|]. split; [exact Hl|]. intros ->.
    assert (In (ItemDict d) (List.filter is_mms logs)) as Hf.
    { apply filter_In. split; [exact Hin|]. cbn. apply bool_decide_eq_true_2. exact Hl. }
    rewrite Hnil in Hf. destruct Hf.
  - intros Hno. destruct (List.filter is_mms logs) as [|x xs] eqn:Ef; [reflexivity|].
    exfalso. assert (In x (List.filter is_mms logs)) as Hf by (rewrite Ef; left; reflexivity).
    apply filter_In in Hf as [Hin Hm]. destruct (Hno x Hin) as (d & l & -> & Hl & Hn).
    cbn in Hm. apply bool_decide_eq_true_1 in Hm. congruence.
  - intros Hne. split; [exact Hall|].
    destruct (List.filter is_mms logs) as [|x xs] eqn:Ef; [congruence|].
    assert (In x (List.filter is_mms logs)) as Hf by (rewrite Ef; left; reflexivity).
    apply filter_In in Hf as [Hin Hm]. destruct x as [d|v]; [|discriminate].
    exists d. split; [exact Hin|]. apply bool_decide_eq_true_1 in Hm. exact Hm.
  - intros [_ (d & Hin & Hd)] Hnil.
    assert (In (ItemDict d) (List.filter is_mms logs)) as Hf.
    { apply filter_In. split; [exact Hin|]. cbn. apply bool_decide_eq_true_2. exact Hd. }
    rewrite Hnil in Hf. destruct Hf.
Qed.

Lemma move_logs_total logs :
  (forall log, In log logs -> exists d l, log = ItemDict d /\ d !! "logger" = Some l) ->
  exists ml, move_logs logs = Ret ml.
Proof.
  intros Hall. eexists. apply move_logs_ret. split; [exact Hall|reflexivity].
Qed.

(** [check_radarr_move_logs] returns [True] exactly when one of its ten
    polls answers 200 with records that are all dicts whose ["logger"]
    is not ["MoveMovieService"], every earlier poll having answered
    another status, or records that are all dicts with a ["logger"],
    one of them ["MoveMovieService"]. *)
Theorem check_radarr_move_logs_spec poll :
  check_radarr_move_logs poll = Ret true <->
  exists a, (a < 10)%nat /\
    (forall b, (b < a)%nat ->
       (exists code, poll b = LogStatus code) \/
       (exists logs, poll b = LogOk logs /\
          (forall log, In log logs -> exists d l, log = ItemDict d /\ d !! "logger" = Some l) /\
          exists d, In (ItemDict d) logs /\ d !! "logger" = Some (JStr "MoveMovieService"))) /\
    exists logs, poll a = LogOk logs /\
      forall log, In log logs -> exists d l, log = ItemDict d /\
        d !! "logger" = Some l /\ l <> JStr "MoveMovieService".
Proof.
  unfold check_radarr_move_logs. rewrite move_logs_loop_spec. split.
  - intros (a & Ha & Hb & logs & Hp & Hm). exists a. split; [lia|]. split.
    + intros b Hb'. destruct (Hb b ltac:(lia)) as [Hc|(logs' & ml & Hp' & Hm' & Hne)]; [left; exact Hc|].
      right. exists logs'. split; [exact Hp'|]. apply (proj2 (move_logs_page _ _ Hm')). exact Hne.
    + exists logs. split; [exact Hp|]. apply (proj1 (move_logs_page _ _ Hm)). reflexivity.
  - intros (a & Ha & Hb & logs & Hp & Hno). exists a. split; [lia|]. split.
    + intros b Hb'. destruct (Hb b ltac:(lia)) as [Hc|(logs' & Hp' & Hall & Hex)]; [left; exact Hc|].
      right. destruct (move_logs_total logs' Hall) as [ml Hm]. exists logs', ml.
      split; [exact Hp'|]. split; [exact Hm|]. apply (proj2 (move_logs_page _ _ Hm)). split; assumption.
    + exists logs. split; [exact Hp|].
      assert (forall log, In log logs -> exists d l, log = ItemDict d /\ d !! "logger" = Some l) as Hall.
      { intros log Hin. destruct (Hno log Hin) as (d & l & ? & ? & _). eauto. }
      destruct (move_logs_total logs Hall) as [ml Hm]. rewrite Hm.
      f_equal. apply (proj1 (move_logs_page _ _ Hm)). exact Hno.
Qed.


(** A Radarr whose first log page of the first retry reports the move
    of "Movie". *)
Definition moved_env : radarr_env := {|
  radarr_folder_format := None;
  radarr_movies := [];
  radarr_root_folders := [];
  radarr_movie_details := fun _ => None;
  radarr_put_ok := fun _ => true;
  radarr_movie_files := fun _ _ => true;
  radarr_log_page := fun r p =>
    if (Nat.eqb r 0 && Nat.eqb p 1)%bool
    then Some [{| log_time := 0; log_message := "Movie moved successfully to /x" |}]
    else Some [];
  radarr_now := 0
|}.

Definition moved_items : list item := [ItemDict {[ "title" := JStr "Movie" ]}].

Lemma update_movie_path_put_guard_witness :
  In (MoviePut "1" scenario_payload)
     (fst (update_movie_path false ascii_unidecode (scenario_env false true) "1"
             scenario_new_path "/data/movies" [scenario_movie])) /\
  root_folder_known (radarr_root_folders (scenario_env false true)) "/data/movies" = Ret true.
Proof.
  assert (H : In (MoviePut "1" scenario_payload)
     (fst (update_movie_path false ascii_unidecode (scenario_env false true) "1"
             scenario_new_path "/data/movies" [scenario_movie])))
    by (vm_compute; left; reflexivity).
  split; [exact H|].
  exact (proj1 (proj2 (proj2 (update_movie_path_put_guard ascii_unidecode false _ _ _ _ _ _ _ H)))).
Defined.

Lemma update_series_path_put_guard_witness :
  (exists p, In (SeriesPut "5" p)
     (fst (update_series_path false (scenario_sonarr [{[ "path" := JStr "/tv" ]}]) "5"
             "/tv/Show (2010)" "/tv"))) /\
  exists d p1, sonarr_series_details (scenario_sonarr [{[ "path" := JStr "/tv" ]}]) "5" = Some d /\
    d <> ∅ /\ as_str (py_get d "path" (JStr "")) = Ret p1 /\
    rstrip_slash p1 <> rstrip_slash "/tv/Show (2010)".
Proof.
  assert (Hex : exists p, In (SeriesPut "5" p)
     (fst (update_series_path false (scenario_sonarr [{[ "path" := JStr "/tv" ]}]) "5"
             "/tv/Show (2010)" "/tv")))
    by (vm_compute; eexists; left; reflexivity).
  destruct Hex as [p Hp]. split; [exists p; exact Hp|].
  exact (proj2 (proj2 (update_series_path_put_guard _ _ _ _ _ _ _ Hp))).
Defined.

Lemma verify_loop_result_witness :
  verify_loop ascii_unidecode (scenario_env true false) "1" [scenario_movie] 0 max_attempts
  = ([], Ret (false || false || false)).
Proof.
  apply (verify_loop_result ascii_unidecode (scenario_env true false) "1" [scenario_movie]).
  intros m [<- | []]. vm_compute. eexists. reflexivity.
Defined.

Lemma wait_for_movie_moves_sound_witness :
  wait_for_movie_moves ascii_unidecode moved_env moved_items = Ret true /\
  exists r p logs log, (r < 5)%nat /\ (1 <= p <= 3)%nat /\
    radarr_log_page moved_env r p = Some logs /\ In log logs /\
    accepted ascii_unidecode (log_time_threshold (radarr_now moved_env)) ["movie"] log "movie".
Proof.
  assert (Hw : wait_for_movie_moves ascii_unidecode moved_env moved_items = Ret true)
    by (vm_compute; reflexivity).
  split; [exact Hw|].
  apply (wait_for_movie_moves_sound ascii_unidecode moved_env moved_items ["movie"]);
    [vm_compute; reflexivity | exact Hw | left; reflexivity].
Defined.

Lemma normalize_title_output_witness :
  normalize_title ascii_unidecode (JStr "The Matrix: Reloaded!") = Ret "thematrixreloaded" /\
  all_chars is_lower_alnum "thematrixreloaded" = true /\
  normalize_title ascii_unidecode (JStr "thematrixreloaded") = Ret "thematrixreloaded".
Proof.
  assert (H : normalize_title ascii_unidecode (JStr "The Matrix: Reloaded!")
              = Ret "thematrixreloaded") by (vm_compute; reflexivity).
  destruct (normalize_title_output ascii_unidecode _ _ H) as [Hc Hf].
  split; [exact H|]. split; [exact Hc|]. apply Hf. reflexivity.
Defined.

Lemma generate_clean_title_shape_witness :
  generate_clean_title (JStr "Alien: Romulus") = Ret "Alien Romulus" /\
  generate_clean_title (JStr "Alien Romulus") = Ret "Alien Romulus".
Proof.
  assert (H : generate_clean_title (JStr "Alien: Romulus") = Ret "Alien Romulus")
    by (vm_compute; reflexivity).
  split; [exact H|].
  apply (proj2 (proj2 (generate_clean_title_shape _ _ H) (eq_refl true))). discriminate.
Defined.

Lemma get_folder_name_tokens_sound_witness :
  In "{Release Year}" (get_folder_name_tokens scenario_format) /\
  exists name before after, "{Release Year}" = "{" ++ name ++ "}" /\ name <> "" /\
    brace_free name = true /\ scenario_format = before ++ "{Release Year}" ++ after.
Proof.
  assert (H : In "{Release Year}" (get_folder_name_tokens scenario_format))
    by (vm_compute; right; left; reflexivity).
  split; [exact H|]. exact (get_folder_name_tokens_sound _ _ H).
Defined.

Lemma extract_token_values_entries_witness :
  extract_token_values scenario_movie scenario_tokens = Ret scenario_tv /\
  NoDup (map fst scenario_tv) /\
  movie_token_value scenario_movie "{Release Year}" = Ret (JInt 2010).
Proof.
  assert (H : extract_token_values scenario_movie scenario_tokens = Ret scenario_tv)
    by (vm_compute; reflexivity).
  destruct (extract_token_values_entries _ _ _ H) as (Hn & _ & Hv).
  split; [exact H|]. split; [exact Hn|]. apply Hv. vm_compute. right; left; reflexivity.
Defined.

Lemma generate_new_path_under_root_witness :
  exists rest, generate_new_path "/data/movies" scenario_format scenario_tv = "/data/movies" ++ rest /\
    (startswith (substitute_tokens scenario_format scenario_tv) "/data/movies" = false ->
     exists r, rest = "/" ++ r).
Proof.
  apply generate_new_path_under_root; vm_compute; reflexivity.
Defined.


Lemma str_app_nil_r s : s ++ "" = s.
Proof. induction s as [|c s IH]; [reflexivity | exact (f_equal (String c) IH)]. Qed.

Lemma prefix_self_app p r : String.prefix p (p ++ r) = true.
Proof.
  induction p as [|c p IH].
  - destruct r; reflexivity.
  - rewrite str_app_cons. cbn [String.prefix]. destruct (ascii_dec c c) as [_|n]; [exact IH|].
    exfalso. apply n. reflexivity.
Qed.

Lemma py_contains_app_mid sub a b : py_contains sub (a ++ sub ++ b) = true.
Proof.
  induction a as [|c a IH].
  - rewrite str_app_nil. destruct (sub ++ b) as [|d s] eqn:E; cbn [py_contains].
    + destruct sub; [reflexivity|discriminate].
    + rewrite <- E, prefix_self_app. reflexivity.
  - rewrite str_app_cons. cbn [py_contains]. rewrite IH. apply orb_true_r.
Qed.

(** [extract_series_token_values] evaluates [firstAired[:4]] even when
    the series has a year, so a series whose ["firstAired"] is [null]
    raises [TypeError]. On success it gives the three Sonarr tokens in
    order; the title-year value is the title (a string), with
    [" (year)"] appended unless ["(year)"] already occurs in it, so it
    always contains ["(year)"], the year being [str(series["year"])]
    when the series has one. *)
Theorem extract_series_token_values_spec s toks :
  (s !! "firstAired" = Some JNull -> extract_series_token_values s toks = Raise "TypeError") /\
  (forall tv, extract_series_token_values s toks = Ret tv ->
   exists t y ty,
     py_get s "title" (JStr "Unknown") = JStr t /\
     (forall v, s !! "year" = Some v -> y = py_str v) /\
     (py_contains ("(" ++ y ++ ")") t = true -> ty = t) /\
     (py_contains ("(" ++ y ++ ")") t = false -> ty = t ++ " (" ++ y ++ ")") /\
     py_contains ("(" ++ y ++ ")") ty = true /\
     tv = [("{Series TitleYear}", JStr ty);
           ("{ImdbId}", py_get s "imdbId" (JStr "Unknown-ImdbId"));
           ("{TvdbId}", py_get s "tvdbId" (JStr "Unknown-TvdbId"))]).
Proof.
  unfold extract_series_token_values. split.
  - intros H.
    assert (py_get s "firstAired" (JStr "0000") = JNull) as -> by (unfold py_get; rewrite H; reflexivity).
    reflexivity.
  - intros tv.
    destruct (slice4 _) as [fa|e]; cbn [bind_out]; [|discriminate].
    destruct (as_str (py_get s "title" (JStr "Unknown"))) as [t|e] eqn:Ht; cbn [bind_out];
      [|discriminate].
    intros [= <-].
    set (y := py_str (py_get s "year" fa)).
    exists t, y, (if py_contains ("(" ++ y ++ ")") t then t else t ++ " (" ++ y ++ ")").
    split.
    { destruct (py_get s "title" (JStr "Unknown")); cbn in Ht; try discriminate.
      injection Ht as ->. reflexivity. }
    split.
    { intros v Hv. unfold y, py_get. rewrite Hv. reflexivity. }
    destruct (py_contains ("(" ++ y ++ ")") t) eqn:Ec.
    + split; [intros _; reflexivity|]. split; [discriminate|]. split; [exact Ec|reflexivity].
    + split; [discriminate|]. split; [intros _; reflexivity|]. split; [|reflexivity].
      assert (E : t ++ " (" ++ y ++ ")" = (t ++ " ") ++ ("(" ++ y ++ ")") ++ "").
      { rewrite str_app_nil_r, str_app_assoc. reflexivity. }
      rewrite E. apply py_contains_app_mid.
Qed.
